(** * BigBFT benchmark engine: key generation, worker pool, collector

    A shallow embedding of [benchmark.go]: the configuration record, the
    key generator [next], and the goroutines of [Load] and [Run]
    (orchestrator, workers, collector) as a scheduler-driven transition
    function over an explicit state with the three channels of the
    program.  A worker's receive on [globalCouner] and its entry into
    [db.Write] are separate steps, so that the order in which the calls
    are made is the scheduler's. *)

From Stdlib Require Import ZArith QArith Lia.
From stdpp Require Import base numbers list strings.

Open Scope Z_scope.

(** ** Machine integers

    Go's [int] is a 64-bit two's-complement integer on the platforms the
    benchmark runs on; sums wrap around. *)

Definition max_int64 : Z := 9223372036854775807.
Definition min_int64 : Z := -9223372036854775808.
Definition two63 : Z := 9223372036854775808.
Definition two64 : Z := 18446744073709551616.

Definition in_int64 (z : Z) : Prop := min_int64 ≤ z ≤ max_int64.

Definition wrap64 (z : Z) : Z := (z + two63) mod two64 - two63.

Definition add64 (a b : Z) : Z := wrap64 (a + b).

(** [a % b] of Go: truncated remainder, a run-time panic when [b] is zero. *)
Definition rem64 (a b : Z) : option Z :=
  if b =? 0 then None else Some (Z.rem a b).

(** ** Configuration *)

Record Bconfig : Type := mkBconfig {
  T : Z;
  N : Z;
  K : Z;
  W : Q;
  Throttle : Z;
  Concurrency : Z;
  Distribution : string;
  LinearizabilityCheck : bool;
  Conflicts : Z;
  Min : Z;
  Mu : Q;
  Sigma : Q;
  Move : bool;
  Speed : Z;
  ZipfianS : Q;
  ZipfianV : Q;
  Lambda : Q;
  Size : Z
}.

Definition DefaultBConfig : Bconfig :=
  {| T := 60; N := 0; K := 1000; W := 1%Q; Throttle := 0; Concurrency := 1;
     Distribution := "uniform"; LinearizabilityCheck := true;
     Conflicts := 100; Min := 0; Mu := 0%Q; Sigma := 60%Q; Move := false;
     Speed := 500; ZipfianS := 2%Q; ZipfianV := 1%Q; Lambda := (1 # 100)%Q;
     Size := 128 |}.

Definition set_W (w : Q) (c : Bconfig) : Bconfig :=
  mkBconfig (T c) (N c) (K c) w (Throttle c) (Concurrency c) (Distribution c)
    (LinearizabilityCheck c) (Conflicts c) (Min c) (Mu c) (Sigma c) (Move c)
    (Speed c) (ZipfianS c) (ZipfianV c) (Lambda c) (Size c).

Definition set_Throttle (t : Z) (c : Bconfig) : Bconfig :=
  mkBconfig (T c) (N c) (K c) (W c) t (Concurrency c) (Distribution c)
    (LinearizabilityCheck c) (Conflicts c) (Min c) (Mu c) (Sigma c) (Move c)
    (Speed c) (ZipfianS c) (ZipfianV c) (Lambda c) (Size c).

(** ** The random source

    [math/rand] is outside the repository.  Each call consumes one raw
    value of the source: [rand.Intn n] panics for [n <= 0] and otherwise
    returns a value of [[0, n)]; [rand.Float64] returns a multiple of
    [2^-53] in [[0, 1)]. *)

Inductive outcome (A : Type) : Type :=
  | Ret (a : A)
  | Panic (msg : string)
  | Fatal (msg : string)
  | Spin.
Arguments Ret {A} a.
Arguments Panic {A} msg.
Arguments Fatal {A} msg.
Arguments Spin {A}.

Definition Intn (raw n : Z) : outcome Z :=
  if n <=? 0 then Panic "invalid argument to Intn" else Ret (raw mod n).

Definition two53 : positive := 9007199254740992.

Definition Float64 (raw : Z) : Q := (raw mod Z.pos two53) # two53.

(** [rand.Float64() < b.W] *)
Definition coin_below (raw : Z) (w : Q) : bool := negb (Qle_bool w (Float64 raw)).

(** [NewBenchmark] builds [b.zipf] with [rand.NewZipf], which returns nil
    when [s <= 1] or [v < 1]; [Uint64] on a nil generator panics. *)
Definition zipf_nil (c : Bconfig) : bool :=
  Qle_bool (ZipfianS c) 1 || negb (Qle_bool 1 (ZipfianV c)).

(** ** Key generation: [Benchmark.next] *)

(** [for key < 0 { key += b.K }] *)
Fixpoint fold_up (fuel : nat) (key k : Z) {struct fuel} : option Z :=
  if key <? 0 then
    match fuel with
    | O => None
    | S f => fold_up f (add64 key k) k
    end
  else Some key.

(** [for key > b.K { key -= b.K }] *)
Fixpoint fold_down (fuel : nat) (key k : Z) {struct fuel} : option Z :=
  if k <? key then
    match fuel with
    | O => None
    | S f => fold_down f (wrap64 (key - k)) k
    end
  else Some key.

(** The advance of the [order] counter, shared by the [order] and
    [conflict] branches: the new counter and the key. *)
Definition advance (c : Bconfig) (counter : Z) : outcome (Z * Z) :=
  match rem64 (add64 counter 1) (K c) with
  | None => Panic "runtime error: integer divide by zero"
  | Some n => Ret (add64 n (Min c), n)
  end.

(** [next c counter draw fuel]: the key and the new value of [b.counter].
    [draw] is what the random source yields for the one call the branch
    makes (for the float-valued draws, the integer the conversion
    produces); [fuel] bounds the iterations of each folding loop, and
    [Spin] is a loop still running when it is used up.  The final
    [b.rate.Wait()] only delays the caller (see [paced]). *)
Definition next (c : Bconfig) (counter draw : Z) (fuel : nat) : outcome (Z * Z) :=
  let d := Distribution c in
  if String.eqb d "order" then advance c counter
  else if String.eqb d "uniform" then
    match Intn draw (K c) with
    | Ret r => Ret (add64 r (Min c), counter)
    | Panic m => Panic m
    | Fatal m => Fatal m
    | Spin => Spin
    end
  else if String.eqb d "conflict" then
    match Intn draw 100 with
    | Ret r => if r <? Conflicts c then Ret (0, counter) else advance c counter
    | Panic m => Panic m
    | Fatal m => Fatal m
    | Spin => Spin
    end
  else if String.eqb d "normal" then
    match fold_up fuel (wrap64 draw) (K c) with
    | None => Spin
    | Some k1 =>
        match fold_down fuel k1 (K c) with
        | None => Spin
        | Some k2 => Ret (k2, counter)
        end
    end
  else if String.eqb d "zipfan" then
    if zipf_nil c then Panic "rand: nil Zipf"
    else Ret (wrap64 (draw mod two64), counter)
  else if String.eqb d "exponential" then Ret (wrap64 draw, counter)
  else Fatal ("unknown distribution " +:+ d).

(** Whether [next] goes through the rate limiter. *)
Definition paced (c : Bconfig) : bool := 0 <? Throttle c.

(** ** The goroutines of [Load] and [Run]

    One orchestrator (the body of [Load] or [Run]), [Concurrency] workers
    and one collector communicate over the channels [keys] (buffered,
    capacity [Concurrency]), [globalCouner] (unbuffered: a send and its
    receive are one joint step) and [latencies] (buffered, capacity 1000).
    The scheduler and the environment (timer, random source, clock, the
    results of [db.Write]) are the [action]s.  The moving mean of [Run]
    only rewrites [b.Mu], which reaches [next] through the draw of the
    normal branch, and the payload of a write is of no consequence here;
    both are left out.  The counter of [b.wait] is unbounded. *)

Definition error : Type := string.

Inductive phase : Type := LoadPhase | RunPhase.

(** Where the orchestrator stands.  [OLoop i] is the head of the
    submission loop ([i] is the loop variable of [Load] and of the
    count-based [Run]); [OSendKey i k] is [keys <- k] after
    [b.wait.Add(1)]; [OSendSeq i] is [globalCouner <- b.globalCouner];
    [OStop] is [b.db.Stop(); close(keys)]; [OWait] is [b.wait.Wait()];
    [OReport] is [Statistic(b.latency)]. *)
Inductive opc : Type :=
  | OLoop (i : Z)
  | OSendKey (i k : Z)
  | OSendSeq (i : Z)
  | OStop
  | OWait
  | OReport
  | ODone.

(** Where a worker stands: at [range keys]; at [<-globalCouner] with key
    [k] in hand; with the received sequence number [q] as the evaluated
    third argument, about to call [b.db.Write(k, v, q)]; inside
    [b.db.Write(k, v, q)]; at [result <- e.Sub(s)]; after the loop. *)
Inductive wpc : Type :=
  | WIdle
  | WRecvSeq (k : Z)
  | WGotSeq (k q : Z)
  | WCalling (k q : Z)
  | WSend (d : Z)
  | WExit.

(** A worker's locals that outlive an iteration: its place and [err]. *)
Record wstate : Type := mkW { w_pc : wpc; w_err : option error }.

(** The timestamps of an [operation] (nanoseconds since [b.startTime]). *)
Record operation : Type := mkOp { op_start : Z; op_end : Z }.

Record state : Type := mkState {
  ph : phase;
  cfg : Bconfig;                        (* b.Bconfig *)
  counter : Z;                          (* b.counter *)
  globalCouner : Z;                     (* b.globalCouner *)
  latency : list Z;                     (* b.latency *)
  wait : Z;                             (* the counter of b.wait *)
  pc : opc;
  keys : list Z;                        (* channel keys *)
  keys_closed : bool;
  seq_closed : bool;                    (* channel globalCouner closed *)
  latencies : list Z;                   (* channel latencies *)
  latencies_closed : bool;
  workers : list wstate;
  submitted : list (Z * Z);             (* (key, sequence) in generation order *)
  dispatched : list (Z * Z);            (* (key, sequence) in the order of the receives *)
  called : list (Z * Z);                (* arguments of db.Write in the order of the calls *)
  returned : list (Z * Z * option error); (* calls of db.Write that returned *)
  ops : list operation;                 (* operations finalised by workers *)
  errlog : list error;                  (* log.Error *)
  report : option (list Z);             (* the argument of Statistic *)
  crashed : option string               (* the process died *)
}.

Definition set_counter (x : Z) (s : state) : state :=
  mkState (ph s) (cfg s) x (globalCouner s) (latency s) (wait s) (pc s) (keys s)
    (keys_closed s) (seq_closed s) (latencies s) (latencies_closed s) (workers s)
    (submitted s) (dispatched s) (called s) (returned s) (ops s) (errlog s) (report s) (crashed s).

Definition set_globalCouner (x : Z) (s : state) : state :=
  mkState (ph s) (cfg s) (counter s) x (latency s) (wait s) (pc s) (keys s)
    (keys_closed s) (seq_closed s) (latencies s) (latencies_closed s) (workers s)
    (submitted s) (dispatched s) (called s) (returned s) (ops s) (errlog s) (report s) (crashed s).

Definition set_latency (x : list Z) (s : state) : state :=
  mkState (ph s) (cfg s) (counter s) (globalCouner s) x (wait s) (pc s) (keys s)
    (keys_closed s) (seq_closed s) (latencies s) (latencies_closed s) (workers s)
    (submitted s) (dispatched s) (called s) (returned s) (ops s) (errlog s) (report s) (crashed s).

Definition set_wait (x : Z) (s : state) : state :=
  mkState (ph s) (cfg s) (counter s) (globalCouner s) (latency s) x (pc s) (keys s)
    (keys_closed s) (seq_closed s) (latencies s) (latencies_closed s) (workers s)
    (submitted s) (dispatched s) (called s) (returned s) (ops s) (errlog s) (report s) (crashed s).

Definition set_pc (x : opc) (s : state) : state :=
  mkState (ph s) (cfg s) (counter s) (globalCouner s) (latency s) (wait s) x (keys s)
    (keys_closed s) (seq_closed s) (latencies s) (latencies_closed s) (workers s)
    (submitted s) (dispatched s) (called s) (returned s) (ops s) (errlog s) (report s) (crashed s).

Definition set_keys (x : list Z) (s : state) : state :=
  mkState (ph s) (cfg s) (counter s) (globalCouner s) (latency s) (wait s) (pc s) x
    (keys_closed s) (seq_closed s) (latencies s) (latencies_closed s) (workers s)
    (submitted s) (dispatched s) (called s) (returned s) (ops s) (errlog s) (report s) (crashed s).

Definition set_keys_closed (x : bool) (s : state) : state :=
  mkState (ph s) (cfg s) (counter s) (globalCouner s) (latency s) (wait s) (pc s) (keys s)
    x (seq_closed s) (latencies s) (latencies_closed s) (workers s)
    (submitted s) (dispatched s) (called s) (returned s) (ops s) (errlog s) (report s) (crashed s).

Definition set_seq_closed (x : bool) (s : state) : state :=
  mkState (ph s) (cfg s) (counter s) (globalCouner s) (latency s) (wait s) (pc s) (keys s)
    (keys_closed s) x (latencies s) (latencies_closed s) (workers s)
    (submitted s) (dispatched s) (called s) (returned s) (ops s) (errlog s) (report s) (crashed s).

Definition set_latencies (x : list Z) (s : state) : state :=
  mkState (ph s) (cfg s) (counter s) (globalCouner s) (latency s) (wait s) (pc s) (keys s)
    (keys_closed s) (seq_closed s) x (latencies_closed s) (workers s)
    (submitted s) (dispatched s) (called s) (returned s) (ops s) (errlog s) (report s) (crashed s).

Definition set_latencies_closed (x : bool) (s : state) : state :=
  mkState (ph s) (cfg s) (counter s) (globalCouner s) (latency s) (wait s) (pc s) (keys s)
    (keys_closed s) (seq_closed s) (latencies s) x (workers s)
    (submitted s) (dispatched s) (called s) (returned s) (ops s) (errlog s) (report s) (crashed s).

Definition set_workers (x : list wstate) (s : state) : state :=
  mkState (ph s) (cfg s) (counter s) (globalCouner s) (latency s) (wait s) (pc s) (keys s)
    (keys_closed s) (seq_closed s) (latencies s) (latencies_closed s) x
    (submitted s) (dispatched s) (called s) (returned s) (ops s) (errlog s) (report s) (crashed s).

Definition set_submitted (x : list (Z * Z)) (s : state) : state :=
  mkState (ph s) (cfg s) (counter s) (globalCouner s) (latency s) (wait s) (pc s) (keys s)
    (keys_closed s) (seq_closed s) (latencies s) (latencies_closed s) (workers s)
    x (dispatched s) (called s) (returned s) (ops s) (errlog s) (report s) (crashed s).

Definition set_dispatched (x : list (Z * Z)) (s : state) : state :=
  mkState (ph s) (cfg s) (counter s) (globalCouner s) (latency s) (wait s) (pc s) (keys s)
    (keys_closed s) (seq_closed s) (latencies s) (latencies_closed s) (workers s)
    (submitted s) x (called s) (returned s) (ops s) (errlog s) (report s) (crashed s).

Definition set_called (x : list (Z * Z)) (s : state) : state :=
  mkState (ph s) (cfg s) (counter s) (globalCouner s) (latency s) (wait s) (pc s) (keys s)
    (keys_closed s) (seq_closed s) (latencies s) (latencies_closed s) (workers s)
    (submitted s) (dispatched s) x (returned s) (ops s) (errlog s) (report s) (crashed s).

Definition set_returned (x : list (Z * Z * option error)) (s : state) : state :=
  mkState (ph s) (cfg s) (counter s) (globalCouner s) (latency s) (wait s) (pc s) (keys s)
    (keys_closed s) (seq_closed s) (latencies s) (latencies_closed s) (workers s)
    (submitted s) (dispatched s) (called s) x (ops s) (errlog s) (report s) (crashed s).

Definition set_ops (x : list operation) (s : state) : state :=
  mkState (ph s) (cfg s) (counter s) (globalCouner s) (latency s) (wait s) (pc s) (keys s)
    (keys_closed s) (seq_closed s) (latencies s) (latencies_closed s) (workers s)
    (submitted s) (dispatched s) (called s) (returned s) x (errlog s) (report s) (crashed s).

Definition set_errlog (x : list error) (s : state) : state :=
  mkState (ph s) (cfg s) (counter s) (globalCouner s) (latency s) (wait s) (pc s) (keys s)
    (keys_closed s) (seq_closed s) (latencies s) (latencies_closed s) (workers s)
    (submitted s) (dispatched s) (called s) (returned s) (ops s) x (report s) (crashed s).

Definition set_report (x : option (list Z)) (s : state) : state :=
  mkState (ph s) (cfg s) (counter s) (globalCouner s) (latency s) (wait s) (pc s) (keys s)
    (keys_closed s) (seq_closed s) (latencies s) (latencies_closed s) (workers s)
    (submitted s) (dispatched s) (called s) (returned s) (ops s) (errlog s) x (crashed s).

Definition set_crashed (x : option string) (s : state) : state :=
  mkState (ph s) (cfg s) (counter s) (globalCouner s) (latency s) (wait s) (pc s) (keys s)
    (keys_closed s) (seq_closed s) (latencies s) (latencies_closed s) (workers s)
    (submitted s) (dispatched s) (called s) (returned s) (ops s) (errlog s) (report s) x.

Definition set_worker (w : nat) (x : wstate) (s : state) : state :=
  set_workers (<[w := x]> (workers s)) s.

(** *** Workers: [Benchmark.worker] *)

(** The tail of the loop body, from [op.start = ...]: with [err == nil]
    the operation ends at [t1] and the worker goes on to send the latency
    [t1 - t0]; otherwise the operation ends at [math.MaxInt64] and the
    error is logged. *)
Definition finish (w : nat) (err : option error) (t0 t1 : Z) (s : state) : state :=
  match err with
  | None =>
      set_worker w (mkW (WSend (t1 - t0)) err) (set_ops (ops s ++ [mkOp t0 t1]) s)
  | Some e =>
      set_worker w (mkW WIdle err)
        (set_errlog (errlog s ++ [e]) (set_ops (ops s ++ [mkOp t0 max_int64]) s))
  end.

(** [for k := range keys]: receive a key and toss the coin
    [rand.Float64() < b.W].  A write goes on to receive its sequence
    number; a read reads the clock twice ([t0], [t1]) and finishes with
    the [err] the worker already holds. *)
Definition worker_take (w : nat) (coin t0 t1 : Z) (s : state) : option state :=
  match workers s !! w with
  | Some (mkW WIdle err) =>
      match keys s with
      | k :: rest =>
          if coin_below coin (W (cfg s))
          then Some (set_worker w (mkW (WRecvSeq k) err) (set_keys rest s))
          else Some (finish w err t0 t1 (set_keys rest s))
      | [] =>
          if keys_closed s then Some (set_worker w (mkW WExit err) s) else None
      end
  | _ => None
  end.

(** The loop variable after an iteration (the timed loop has none). *)
Definition bump (s : state) (i : Z) : Z :=
  match ph s with
  | LoadPhase => add64 i 1
  | RunPhase => if 0 <? T (cfg s) then i else add64 i 1
  end.

(** The rendezvous on [globalCouner]: the orchestrator's send and worker
    [w]'s receive.  The received value is the third argument of the call
    of [db.Write] the worker is about to make; the call itself is a step
    of its own ([enter_write]). *)
Definition rendezvous (w : nat) (s : state) : option state :=
  match pc s, workers s !! w with
  | OSendSeq i, Some (mkW (WRecvSeq k) err) =>
      Some (set_pc (OLoop (bump s i))
             (set_dispatched (dispatched s ++ [(k, globalCouner s)])
               (set_worker w (mkW (WGotSeq k (globalCouner s)) err) s)))
  | _, _ => None
  end.

(** A receive on the closed [globalCouner] yields the zero value. *)
Definition recv_closed (w : nat) (s : state) : option state :=
  match seq_closed s, workers s !! w with
  | true, Some (mkW (WRecvSeq k) err) =>
      Some (set_dispatched (dispatched s ++ [(k, 0)])
             (set_worker w (mkW (WGotSeq k 0) err) s))
  | _, _ => None
  end.

(** Worker [w] enters [b.db.Write(k, v, q)] with the arguments it has
    evaluated. *)
Definition enter_write (w : nat) (s : state) : option state :=
  match workers s !! w with
  | Some (mkW (WGotSeq k q) err) =>
      Some (set_called (called s ++ [(k, q)])
             (set_worker w (mkW (WCalling k q) err) s))
  | _ => None
  end.

(** [db.Write] returns [res] to worker [w]; [t0] and [t1] are the clock
    before and after the call. *)
Definition write_ret (w : nat) (res : option error) (t0 t1 : Z) (s : state)
  : option state :=
  match workers s !! w with
  | Some (mkW (WCalling k q) _) =>
      Some (finish w res t0 t1 (set_returned (returned s ++ [(k, q, res)]) s))
  | _ => None
  end.

(** [result <- e.Sub(s)] *)
Definition send_latency (w : nat) (s : state) : option state :=
  match workers s !! w with
  | Some (mkW (WSend d) err) =>
      if latencies_closed s then Some (set_crashed (Some "send on closed channel") s)
      else if Z.of_nat (length (latencies s)) <? 1000
      then Some (set_worker w (mkW WIdle err) (set_latencies (latencies s ++ [d]) s))
      else None
  | _ => None
  end.

(** *** Collector: [Benchmark.collect] *)

Definition collect (s : state) : option state :=
  match latencies s with
  | t :: rest =>
      let s1 := set_latency (latency s ++ [t]) (set_latencies rest s) in
      if wait s - 1 <? 0
      then Some (set_crashed (Some "sync: negative WaitGroup counter") s1)
      else Some (set_wait (wait s - 1) s1)
  | [] => None
  end.

(** *** Orchestrator: the bodies of [Load] and [Run] *)

(** [b.wait.Add(1)] and the evaluation of [b.next()] in the loop of [Run]. *)
Definition generate (draw : Z) (fuel : nat) (i : Z) (s : state) : option state :=
  let s1 := set_wait (wait s + 1) s in
  match next (cfg s) (counter s) draw fuel with
  | Ret (k, c') => Some (set_pc (OSendKey i k) (set_counter c' s1))
  | Panic m => Some (set_crashed (Some m) s1)
  | Fatal m => Some (set_crashed (Some m) s1)
  | Spin => None
  end.

(** The sequence number that follows the key: [Run] increments
    [b.globalCouner] first, [Load] has the increment commented out. *)
Definition next_seq (s : state) : Z :=
  match ph s with
  | LoadPhase => globalCouner s
  | RunPhase => add64 (globalCouner s) 1
  end.

Definition orch (fired : bool) (draw : Z) (fuel : nat) (s : state) : option state :=
  match pc s with
  | OLoop i =>
      match ph s with
      | LoadPhase =>
          if i <? add64 (Min (cfg s)) (K (cfg s))
          then Some (set_pc (OSendKey i i) (set_wait (wait s + 1) s))
          else Some (set_pc OStop s)
      | RunPhase =>
          if 0 <? T (cfg s) then
            if fired then Some (set_pc OStop s) else generate draw fuel i s
          else
            if i <? N (cfg s) then generate draw fuel i s
            else Some (set_pc OWait s)
      end
  | OSendKey i k =>
      if Z.of_nat (length (keys s)) <? Concurrency (cfg s) then
        Some (set_pc (OSendSeq i)
               (set_submitted (submitted s ++ [(k, next_seq s)])
                 (set_globalCouner (next_seq s) (set_keys (keys s ++ [k]) s))))
      else None
  | OSendSeq _ => None
  | OStop =>
      match ph s with
      | LoadPhase => Some (set_pc OWait (set_keys_closed true s))
      | RunPhase => Some (set_pc OReport (set_seq_closed true (set_keys_closed true s)))
      end
  | OWait =>
      if wait s =? 0 then
        Some (set_pc (match ph s with LoadPhase => OReport | RunPhase => OStop end) s)
      else None
  | OReport =>
      Some (set_pc ODone (set_latencies_closed true (set_report (Some (latency s)) s)))
  | ODone => None
  end.

(** *** Schedules *)

Inductive action : Type :=
  | AOrch (fired : bool) (draw : Z) (fuel : nat)
  | ARendezvous (w : nat)
  | ATake (w : nat) (coin t0 t1 : Z)
  | ARecvClosed (w : nat)
  | AEnter (w : nat)
  | AWriteRet (w : nat) (res : option error) (t0 t1 : Z)
  | ASend (w : nat)
  | ACollect.

Definition step (s : state) (a : action) : option state :=
  match crashed s with
  | Some _ => None
  | None =>
      match a with
      | AOrch fired draw fuel => orch fired draw fuel s
      | ARendezvous w => rendezvous w s
      | ATake w coin t0 t1 => worker_take w coin t0 t1 s
      | ARecvClosed w => recv_closed w s
      | AEnter w => enter_write w s
      | AWriteRet w res t0 t1 => write_ret w res t0 t1 s
      | ASend w => send_latency w s
      | ACollect => collect s
      end
  end.

Fixpoint exec (s : state) (sched : list action) : option state :=
  match sched with
  | [] => Some s
  | a :: rest =>
      match step s a with
      | Some s' => exec s' rest
      | None => None
      end
  end.

Definition idle : wstate := mkW WIdle None.

(** The state in which [Load] or [Run] enters its submission loop, from a
    benchmark whose counters are [cnt] and [g] and whose latency slice is
    [lat]: [Load] sets [b.W = 1.0] and [b.Throttle = 0], [Run] empties
    [b.latency]; the workers and the collector are started.  With a
    negative [Concurrency], [make(chan int, b.Concurrency)] panics. *)
Definition start (p : phase) (c : Bconfig) (cnt g : Z) (lat : list Z) : state :=
  mkState p
    (match p with LoadPhase => set_Throttle 0 (set_W 1%Q c) | RunPhase => c end)
    cnt g
    (match p with LoadPhase => lat | RunPhase => [] end)
    0
    (OLoop (match p with LoadPhase => Min c | RunPhase => 0 end))
    [] false false [] false
    (replicate (Z.to_nat (Concurrency c)) idle)
    [] [] [] [] [] [] None
    (if Concurrency c <? 0 then Some "makechan: size out of range" else None).

(** [NewBenchmark] sets both counters to [-1]. *)
Definition fresh (p : phase) (c : Bconfig) : state := start p c (-1) (-1) [].

Definition reachable (s0 s : state) : Prop := ∃ sched, exec s0 sched = Some s.

Definition set_Distribution (d : string) (c : Bconfig) : Bconfig :=
  mkBconfig (T c) (N c) (K c) (W c) (Throttle c) (Concurrency c) d
    (LinearizabilityCheck c) (Conflicts c) (Min c) (Mu c) (Sigma c) (Move c)
    (Speed c) (ZipfianS c) (ZipfianV c) (Lambda c) (Size c).

Definition set_K (k : Z) (c : Bconfig) : Bconfig :=
  mkBconfig (T c) (N c) k (W c) (Throttle c) (Concurrency c) (Distribution c)
    (LinearizabilityCheck c) (Conflicts c) (Min c) (Mu c) (Sigma c) (Move c)
    (Speed c) (ZipfianS c) (ZipfianV c) (Lambda c) (Size c).

Definition set_Min (m : Z) (c : Bconfig) : Bconfig :=
  mkBconfig (T c) (N c) (K c) (W c) (Throttle c) (Concurrency c) (Distribution c)
    (LinearizabilityCheck c) (Conflicts c) m (Mu c) (Sigma c) (Move c)
    (Speed c) (ZipfianS c) (ZipfianV c) (Lambda c) (Size c).

(** The conflict branch of [next] takes the counter (rather than the hot
    key) when the draw of [rand.Intn(100)] is not below [Conflicts]. *)
Definition cold_draw (c : Bconfig) (draw : Z) : Prop := Conflicts c ≤ draw mod 100.

(** ** Bookkeeping over states *)

(** A worker that has taken a key and has neither sent its latency nor
    logged its error yet. *)
Definition holding (x : wstate) : nat :=
  match w_pc x with
  | WRecvSeq _ | WGotSeq _ _ | WCalling _ _ | WSend _ => 1
  | WIdle | WExit => 0
  end.

Fixpoint busy (ws : list wstate) : nat :=
  match ws with
  | [] => 0
  | x :: rest => holding x + busy rest
  end.

(** The key of a worker that waits for its sequence number. *)
Definition recv_key (x : wstate) : list Z :=
  match w_pc x with
  | WRecvSeq k => [k]
  | _ => []
  end.

Fixpoint recv_keys (ws : list wstate) : list Z :=
  match ws with
  | [] => []
  | x :: rest => recv_key x ++ recv_keys rest
  end.

(** The keys sent on [keys] that have not met a sequence number yet. *)
Definition pending (s : state) : list Z := keys s ++ recv_keys (workers s).

Definition at_send_key (p : opc) : nat :=
  match p with
  | OSendKey _ _ => 1
  | _ => 0
  end.

Definition at_send_seq (p : opc) : bool :=
  match p with
  | OSendSeq _ => true
  | _ => false
  end.

(** The orchestrator has left the submission loop. *)
Definition past_loop (p : opc) : bool :=
  match p with
  | OStop | OWait | OReport | ODone => true
  | OLoop _ | OSendKey _ _ | OSendSeq _ => false
  end.

(** [Load] and the count-based [Run] call [b.wait.Wait()]; the timed [Run]
    does not. *)
Definition waits_for_barrier (s : state) : bool :=
  match ph s with
  | LoadPhase => true
  | RunPhase => negb (0 <? T (cfg s))
  end.

(** The barrier counts the keys that are queued, in the hands of a worker,
    represented by a latency not yet collected, or failed. *)
Definition accounted (s : state) : Prop :=
  wait s = Z.of_nat (at_send_key (pc s) + length (keys s) + busy (workers s)
                     + length (latencies s) + length (errlog s)).

(** The barrier was raised once per key and lowered once per latency
    the collector appended ([n0] latencies were there at the start). *)
Definition balanced (n0 : nat) (s : state) : Prop :=
  wait s + Z.of_nat (length (latency s))
  = Z.of_nat (n0 + length (submitted s) + at_send_key (pc s)).

(** The receives on [globalCouner] follow the submissions: while the
    orchestrator offers a sequence number, the last submission is the only
    one that has not been received and its key is the only one that can
    meet the number. *)
Definition paired (s : state) : Prop :=
  (seq_closed s = true → past_loop (pc s) = true) ∧
  if at_send_seq (pc s) then
    ∃ k, submitted s = dispatched s ++ [(k, globalCouner s)] ∧
         (pending s = [k] ∨ pending s = [])
  else submitted s = dispatched s ∧ pending s = [].

(** The sequence number of the [j]-th submission of a phase that starts
    with [b.globalCouner = g]. *)
Definition seq_of (p : phase) (g : Z) (j : nat) : Z :=
  match p with
  | LoadPhase => g
  | RunPhase => wrap64 (g + 1 + Z.of_nat j)
  end.

Definition numbered (g : Z) (s : state) : Prop :=
  globalCouner s
  = match ph s with
    | LoadPhase => g
    | RunPhase => wrap64 (g + Z.of_nat (length (submitted s)))
    end ∧
  ∀ j k q, submitted s !! j = Some (k, q) → q = seq_of (ph s) g j.

(** The loop of [Load] over [i := b.Min; i < b.Min+b.K; i++]. *)
Definition load_progress (c : Bconfig) (s : state) : Prop :=
  ph s = LoadPhase ∧ cfg s = set_Throttle 0 (set_W 1%Q c) ∧
  match pc s with
  | OLoop i =>
      Min c ≤ i ∧ (i ≤ add64 (Min c) (K c) ∨ i = Min c) ∧
      (submitted s).*1 = seqZ (Min c) (i - Min c)
  | OSendKey i k =>
      k = i ∧ Min c ≤ i < add64 (Min c) (K c) ∧
      (submitted s).*1 = seqZ (Min c) (i - Min c)
  | OSendSeq i =>
      Min c ≤ i < add64 (Min c) (K c) ∧
      (submitted s).*1 = seqZ (Min c) (i + 1 - Min c)
  | OStop | OWait | OReport | ODone =>
      (submitted s).*1 = seqZ (Min c) (add64 (Min c) (K c) - Min c)
  end.

(** Where the barrier is waited for, the orchestrator goes past
    [b.wait.Wait()] with the counter at zero, and the statistics are those
    of the whole latency slice. *)
Definition drained (s : state) : Prop :=
  waits_for_barrier s = true →
  match pc s with
  | OReport | ODone => wait s = 0
  | OStop => ph s = RunPhase → wait s = 0
  | OLoop _ | OSendKey _ _ | OSendSeq _ | OWait => True
  end ∧
  ∀ l, report s = Some l → pc s = ODone ∧ l = latency s.

(** Worker [w] holds a non-nil [err]. *)
Definition holds_error (w : nat) (s : state) : Prop :=
  ∃ x e, workers s !! w = Some x ∧ w_err x = Some e.

(** No call of [db.Write] returns nil to worker [w] in the schedule. *)
Definition no_success_for (w : nat) (sched : list action) : Prop :=
  Forall (λ a, ∀ t0 t1, a ≠ AWriteRet w None t0 t1) sched.

(** ** Concrete runs *)

(** One submission served by worker [w]: the orchestrator raises the
    barrier and computes the key, sends it, the worker takes it as a
    write, meets the sequence number and calls [db.Write], which returns
    [res] with the clock at 5 before and 9 after the call. *)
Definition round (w : nat) (res : option error) : list action :=
  [AOrch false 0 0; AOrch false 0 0; ATake w 0 0 0; ARendezvous w; AEnter w;
   AWriteRet w res 5 9].

(** The worker sends its latency and the collector takes it. *)
Definition deliver (w : nat) : list action := [ASend w; ACollect].

(** A count-based run of three requests over two workers. *)
Definition count_cfg : Bconfig :=
  {| T := 0; N := 3; K := 10; W := 1%Q; Throttle := 0; Concurrency := 2;
     Distribution := "order"; LinearizabilityCheck := true;
     Conflicts := 100; Min := 0; Mu := 0%Q; Sigma := 60%Q; Move := false;
     Speed := 500; ZipfianS := 2%Q; ZipfianV := 1%Q; Lambda := (1 # 100)%Q;
     Size := 128 |}.

Definition count_sched : list action :=
  round 0 None ++ deliver 0 ++ round 1 None ++ deliver 1 ++
  round 0 None ++ deliver 0 ++
  [AOrch false 0 0; AOrch false 0 0; AOrch false 0 0; AOrch false 0 0].

(** A load of the two keys [0] and [1] by one worker. *)
Definition load_cfg : Bconfig :=
  {| T := 60; N := 0; K := 2; W := (1 # 2)%Q; Throttle := 50; Concurrency := 1;
     Distribution := "uniform"; LinearizabilityCheck := true;
     Conflicts := 100; Min := 0; Mu := 0%Q; Sigma := 60%Q; Move := false;
     Speed := 500; ZipfianS := 2%Q; ZipfianV := 1%Q; Lambda := (1 # 100)%Q;
     Size := 128 |}.

Definition load_sched : list action :=
  round 0 None ++ deliver 0 ++ round 0 None ++ deliver 0 ++
  [AOrch false 0 0; AOrch false 0 0; AOrch false 0 0; AOrch false 0 0].

(** The state a schedule leads to (the start state when it is refused). *)
Definition run_to (s0 : state) (sched : list action) : state :=
  default s0 (exec s0 sched).

(** A count-based run of one request whose write fails. *)
Definition fail_cfg : Bconfig :=
  {| T := 0; N := 1; K := 10; W := 1%Q; Throttle := 0; Concurrency := 1;
     Distribution := "order"; LinearizabilityCheck := true;
     Conflicts := 100; Min := 0; Mu := 0%Q; Sigma := 60%Q; Move := false;
     Speed := 500; ZipfianS := 2%Q; ZipfianV := 1%Q; Lambda := (1 # 100)%Q;
     Size := 128 |}.

Definition fail_sched : list action :=
  round 0 (Some "write failed") ++ [AOrch false 0 0].

(** A timed run cut off while its first write is in flight. *)
Definition timed_cfg : Bconfig :=
  {| T := 60; N := 0; K := 10; W := 1%Q; Throttle := 0; Concurrency := 1;
     Distribution := "order"; LinearizabilityCheck := true;
     Conflicts := 100; Min := 0; Mu := 0%Q; Sigma := 60%Q; Move := false;
     Speed := 500; ZipfianS := 2%Q; ZipfianV := 1%Q; Lambda := (1 # 100)%Q;
     Size := 128 |}.

Definition in_flight_sched : list action :=
  [AOrch false 0 0; AOrch false 0 0; ATake 0 0 0 0; ARendezvous 0; AEnter 0].

Definition cutoff_sched : list action :=
  in_flight_sched ++ [AOrch true 0 0; AOrch false 0 0; AOrch false 0 0].

(** A run with write ratio one half: the first key is written and its
    write fails, the second key is taken as a read by the same worker. *)
Definition half_cfg : Bconfig :=
  {| T := 0; N := 2; K := 10; W := (1 # 2)%Q; Throttle := 0; Concurrency := 1;
     Distribution := "order"; LinearizabilityCheck := true;
     Conflicts := 100; Min := 0; Mu := 0%Q; Sigma := 60%Q; Move := false;
     Speed := 500; ZipfianS := 2%Q; ZipfianV := 1%Q; Lambda := (1 # 100)%Q;
     Size := 128 |}.

Definition second_key_sched : list action := [AOrch false 0 0; AOrch false 0 0].

(** A raw value of the random source whose [Float64] is just below one. *)
Definition high_coin : Z := 9007199254740991.

(** A timed run whose one write fails before the timer fires. *)
Definition timed_fail_sched : list action :=
  round 0 (Some "write failed") ++
  [AOrch true 0 0; AOrch false 0 0; AOrch false 0 0].

(** A point of [Load] seen from the orchestrator and the first worker:
    the orchestrator at [p], [ks] in the channel [keys], the first worker
    in state [x], [lq] in the channel [latencies], the barrier at [n]. *)
Definition load_at (c : Bconfig) (p : opc) (ks : list Z) (x : wstate)
    (lq : list Z) (n : Z) (s : state) : Prop :=
  crashed s = None ∧ ph s = LoadPhase ∧ cfg s = set_Throttle 0 (set_W 1%Q c) ∧
  pc s = p ∧ keys s = ks ∧ latencies s = lq ∧ latencies_closed s = false ∧
  wait s = n ∧ ∃ ws, workers s = x :: ws.

(** The head of the loop of [Load] with nothing in flight and the first
    worker waiting for a key. *)
Definition load_head (c : Bconfig) (i : Z) (s : state) : Prop :=
  load_at c (OLoop i) [] idle [] 0 s.

(** The schedule in which the first worker serves every key of a load of
    [n] keys and every write succeeds. *)
Fixpoint load_rounds (n : nat) : list action :=
  match n with
  | O => []
  | S m => round 0 None ++ deliver 0 ++ load_rounds m
  end.

Definition wind_up : list action :=
  [AOrch false 0 0; AOrch false 0 0; AOrch false 0 0; AOrch false 0 0].

(** ** Bookkeeping for the further properties *)

(** The two panics of the channels and the barrier. *)
Definition closed_send_panic : string := "send on closed channel".
Definition negative_wait_panic : string := "sync: negative WaitGroup counter".

(** Workers that stand at [result <- e.Sub(s)]. *)
Definition sending (x : wstate) : nat :=
  match w_pc x with
  | WSend _ => 1
  | _ => 0
  end.

Fixpoint senders (ws : list wstate) : nat :=
  match ws with
  | [] => 0
  | x :: rest => sending x + senders rest
  end.

(** Every finalised operation has logged an error or produced a latency
    that a worker is about to send, that is in the channel, or that the
    collector has appended ([n0] latencies were there at the start). *)
Definition settled (n0 : nat) (s : state) : Prop :=
  (n0 + length (ops s)
   = length (errlog s) + senders (workers s) + length (latencies s)
     + length (latency s))%nat.

(** The channel [latencies] is closed only when the phase returns. *)
Definition closed_at_end (s : state) : Prop :=
  (latencies_closed s = true → pc s = ODone) ∧
  (report s ≠ None → pc s = ODone).

(** The orchestrator offers a sequence number that no key is left to
    meet. *)
Definition stalled (s : state) : Prop :=
  at_send_seq (pc s) = true ∧ pending s = [].

(** The loop of the count-based [Run] over [i := 0; i < b.N; i++]. *)
Definition count_progress (c : Bconfig) (s : state) : Prop :=
  ph s = RunPhase ∧ cfg s = c ∧
  match pc s with
  | OLoop i =>
      0 ≤ i ∧ (i ≤ N c ∨ i = 0) ∧ Z.of_nat (length (submitted s)) = i
  | OSendKey i k => 0 ≤ i < N c ∧ Z.of_nat (length (submitted s)) = i
  | OSendSeq i => 0 ≤ i < N c ∧ Z.of_nat (length (submitted s)) = i + 1
  | OStop | OWait | OReport | ODone =>
      Z.of_nat (length (submitted s)) = Z.max 0 (N c)
  end.

(** The names the switch of [next] has a case for. *)
Definition known_distribution (d : string) : bool :=
  String.eqb d "order" || String.eqb d "uniform" || String.eqb d "conflict" ||
  String.eqb d "normal" || String.eqb d "zipfan" || String.eqb d "exponential".

(** A phase without workers: nothing was sent, called or collected. *)
Definition idle_phase (l0 : list Z) (s : state) : Prop :=
  Concurrency (cfg s) ≤ 0 ∧ workers s = [] ∧ keys s = [] ∧ latencies s = [] ∧
  submitted s = [] ∧ dispatched s = [] ∧ called s = [] ∧ returned s = [] ∧
  ops s = [] ∧ latency s = l0.

(** A run that has not got a key out of [next]. *)
Definition keyless (c : Bconfig) (s : state) : Prop :=
  ph s = RunPhase ∧ cfg s = c ∧ submitted s = [] ∧ dispatched s = [] ∧
  keys s = [] ∧ recv_keys (workers s) = [] ∧
  at_send_key (pc s) = 0%nat ∧ at_send_seq (pc s) = false.

(** Worker [w] holds a nil [err]. *)
Definition holds_no_error (w : nat) (s : state) : Prop :=
  ∃ x, workers s !! w = Some x ∧ w_err x = None.

(** No call of [db.Write] returns an error to worker [w] in the schedule. *)
Definition no_failure_for (w : nat) (sched : list action) : Prop :=
  Forall (λ a, ∀ e t0 t1, a ≠ AWriteRet w (Some e) t0 t1) sched.

Definition set_Concurrency_zero (c : Bconfig) : Bconfig :=
  mkBconfig (T c) (N c) (K c) (W c) (Throttle c) 0 (Distribution c)
    (LinearizabilityCheck c) (Conflicts c) (Min c) (Mu c) (Sigma c) (Move c)
    (Speed c) (ZipfianS c) (ZipfianV c) (Lambda c) (Size c).

(** A [Run] under the order distribution that started with the counter
    at [cnt]: after [m] calls of [next] the counter is [(cnt + m) mod K],
    and the [j]-th key is [Min + (cnt + 1 + j) mod K]. *)
Definition order_run (c : Bconfig) (cnt : Z) (s : state) : Prop :=
  ph s = RunPhase ∧ cfg s = c ∧
  counter s
  = (if Z.of_nat (length (submitted s) + at_send_key (pc s)) =? 0 then cnt
     else (cnt + Z.of_nat (length (submitted s) + at_send_key (pc s))) mod K c) ∧
  (∀ i k, pc s = OSendKey i k →
     k = Min c + (cnt + 1 + Z.of_nat (length (submitted s))) mod K c) ∧
  ∀ j k q, submitted s !! j = Some (k, q) →
    k = Min c + (cnt + 1 + Z.of_nat j) mod K c.

(** A point of a phase seen from the orchestrator and the first worker:
    phase [p0] under configuration [c0], the orchestrator at [p], [ks] in
    the channel [keys], the first worker in state [x], [lq] in the channel
    [latencies] (still open), the barrier at [n]. *)
Definition at_point (p0 : phase) (c0 : Bconfig) (p : opc) (ks : list Z)
    (x : wstate) (lq : list Z) (n : Z) (s : state) : Prop :=
  crashed s = None ∧ ph s = p0 ∧ cfg s = c0 ∧
  pc s = p ∧ keys s = ks ∧ latencies s = lq ∧ latencies_closed s = false ∧
  wait s = n ∧ ∃ ws, workers s = x :: ws.

(** The schedule in which the first worker serves [n] submissions of a
    run and every write succeeds. *)
Fixpoint run_rounds (n : nat) : list action :=
  match n with
  | O => []
  | S m => round 0 None ++ deliver 0 ++ run_rounds m
  end.

(** A timed run cut off while its first write is in flight, which then
    returns without error. *)
Definition late_return_sched : list action :=
  cutoff_sched ++ [AWriteRet 0 None 5 9; ASend 0].

(** A [Run] all of whose keys so far lie in [[Min, Min + K)]. *)
Definition keys_in_range (c : Bconfig) (s : state) : Prop :=
  ph s = RunPhase ∧ cfg s = c ∧
  (∀ i k, pc s = OSendKey i k → Min c ≤ k < Min c + K c) ∧
  ∀ k q, (k, q) ∈ submitted s → Min c ≤ k < Min c + K c.

(** ** Calls of [db.Write] *)

(** The arguments a worker has evaluated for a call of [db.Write] it has
    not entered yet. *)
Definition got_pair (x : wstate) : list (Z * Z) :=
  match w_pc x with
  | WGotSeq k q => [(k, q)]
  | _ => []
  end.

Fixpoint got_pairs (ws : list wstate) : list (Z * Z) :=
  match ws with
  | [] => []
  | x :: rest => got_pair x ++ got_pairs rest
  end.

(** Every received pair is the argument pair of one call: a call already
    entered, or the call its worker is about to make. *)
Definition entered (s : state) : Prop :=
  dispatched s ≡ₚ called s ++ got_pairs (workers s).

(** A count-based run of three requests over two workers in which the
    second worker receives the sequence number [1] and the first worker
    the number [2], and the first worker enters [db.Write] before the
    second. *)
Definition overtaking_sched : list action :=
  round 0 None ++ deliver 0 ++
  [AOrch false 0 0; AOrch false 0 0; ATake 1 0 0 0; ARendezvous 1;
   AOrch false 0 0; AOrch false 0 0; ATake 0 0 0 0; ARendezvous 0;
   AEnter 0; AEnter 1].

(** The run of [overtaking_sched] brought to its end: both writes in
    flight return, their latencies are collected, and the orchestrator
    goes through [b.wait.Wait()] to its report. *)
Definition overtaking_end_sched : list action :=
  overtaking_sched ++
  [AWriteRet 0 None 5 9; ASend 0; ACollect;
   AWriteRet 1 None 5 9; ASend 1; ACollect;
   AOrch false 0 0; AOrch false 0 0; AOrch false 0 0; AOrch false 0 0].

(** * Properties *)

(** ** Machine integers *)

Lemma wrap64_id (z : Z) : in_int64 z → wrap64 z = z.
Proof.
  unfold in_int64, wrap64, min_int64, max_int64, two63, two64. intros Hz.
  rewrite Z.mod_small; lia.
Qed.

Lemma wrap64_range (z : Z) : in_int64 (wrap64 z).
Proof.
  unfold in_int64, wrap64, min_int64, max_int64, two63, two64.
  pose proof (Z.mod_pos_bound (z + 9223372036854775808) 18446744073709551616).
  lia.
Qed.

Lemma add64_id (a b : Z) : in_int64 (a + b) → add64 a b = a + b.
Proof. apply wrap64_id. Qed.

Lemma Intn_range (raw n r : Z) : Intn raw n = Ret r → 0 ≤ r < n.
Proof.
  unfold Intn. destruct (Z.leb_spec n 0); [discriminate|].
  intros [= <-]. apply Z.mod_pos_bound. lia.
Qed.

Lemma Intn_positive (raw n : Z) : 0 < n → Intn raw n = Ret (raw mod n).
Proof. unfold Intn. intros Hn. destruct (Z.leb_spec n 0); [lia | done]. Qed.

Lemma Intn_nonpositive (raw n : Z) :
  n ≤ 0 → Intn raw n = Panic "invalid argument to Intn".
Proof. unfold Intn. intros Hn. destruct (Z.leb_spec n 0); [done | lia]. Qed.

Lemma Float64_below_one (raw : Z) : coin_below raw 1%Q = true.
Proof.
  unfold coin_below, Float64, Qle_bool. cbn [Qnum Qden].
  pose proof (Z.mod_pos_bound raw (Z.pos two53) eq_refl) as Hb.
  apply negb_true_iff, Z.leb_gt. lia.
Qed.

(** ** The order counter *)

Lemma advance_zero (c : Bconfig) (counter : Z) :
  K c = 0 → advance c counter = Panic "runtime error: integer divide by zero".
Proof. unfold advance, rem64. intros ->. done. Qed.

Lemma advance_returns (c : Bconfig) (counter : Z) :
  K c ≠ 0 →
  advance c counter =
    Ret (add64 (Z.rem (add64 counter 1) (K c)) (Min c), Z.rem (add64 counter 1) (K c)).
Proof.
  unfold advance, rem64. intros Hk.
  destruct (Z.eqb_spec (K c) 0); [done | done].
Qed.

Lemma advance_range (c : Bconfig) (counter : Z) :
  1 ≤ K c → in_int64 (K c) → in_int64 (Min c) → Min c + K c ≤ two63 →
  -1 ≤ counter < K c →
  ∃ key cnt', advance c counter = Ret (key, cnt') ∧
              Min c ≤ key < Min c + K c ∧ 0 ≤ cnt' < K c.
Proof.
  intros Hk Hki Hm Hov Hc.
  rewrite advance_returns by lia.
  rewrite (add64_id counter 1)
    by (unfold in_int64, min_int64, max_int64, two63 in *; lia).
  pose proof (Z.rem_bound_pos (counter + 1) (K c)) as Hr.
  eexists _, _. split; [reflexivity|].
  rewrite add64_id
    by (unfold in_int64, min_int64, max_int64, two63 in *; lia).
  lia.
Qed.

(** ** The folding loops of the normal branch *)

Lemma fold_up_returns (fuel : nat) (key k : Z) :
  1 ≤ k ≤ max_int64 → min_int64 ≤ key → - key ≤ Z.of_nat fuel →
  ∃ r, fold_up fuel key k = Some r.
Proof.
  intros Hk. revert key. induction fuel as [|f IH]; intros key Hlo Hf; cbn [fold_up].
  - destruct (Z.ltb_spec key 0); [lia | eauto].
  - destruct (Z.ltb_spec key 0); [| eauto].
    rewrite add64_id by (unfold in_int64, min_int64, max_int64 in *; lia).
    apply IH; lia.
Qed.

Lemma fold_up_range (fuel : nat) (key k r : Z) :
  1 ≤ k ≤ max_int64 → min_int64 ≤ key →
  fold_up fuel key k = Some r →
  0 ≤ r ∧ (key < 0 → r < k) ∧ (0 ≤ key → r = key).
Proof.
  intros Hk. revert key. induction fuel as [|f IH]; intros key Hlo; cbn [fold_up].
  - destruct (Z.ltb_spec key 0); [discriminate|]. intros [= <-]. lia.
  - destruct (Z.ltb_spec key 0); [| intros [= <-]; lia].
    rewrite add64_id by (unfold in_int64, min_int64, max_int64 in *; lia).
    intros Hr. apply IH in Hr; [|lia]. lia.
Qed.

Lemma fold_down_returns (fuel : nat) (key k : Z) :
  1 ≤ k → key ≤ max_int64 → key - k ≤ Z.of_nat fuel →
  ∃ r, fold_down fuel key k = Some r.
Proof.
  intros Hk. revert key. induction fuel as [|f IH]; intros key Hhi Hf; cbn [fold_down].
  - destruct (Z.ltb_spec k key); [lia | eauto].
  - destruct (Z.ltb_spec k key); [| eauto].
    rewrite wrap64_id by (unfold in_int64, min_int64, max_int64 in *; lia).
    apply IH; lia.
Qed.

Lemma fold_down_range (fuel : nat) (key k r : Z) :
  1 ≤ k → 0 ≤ key ≤ max_int64 →
  fold_down fuel key k = Some r → 0 ≤ r ≤ k.
Proof.
  intros Hk. revert key. induction fuel as [|f IH]; intros key Hkey; cbn [fold_down].
  - destruct (Z.ltb_spec k key); [discriminate|]. intros [= <-]. lia.
  - destruct (Z.ltb_spec k key); [| intros [= <-]; lia].
    rewrite wrap64_id by (unfold in_int64, min_int64, max_int64 in *; lia).
    intros Hr. apply IH in Hr; lia.
Qed.

(** With [K = 0] the first loop adds nothing to a negative key. *)
Lemma fold_up_spins (fuel : nat) (key : Z) :
  in_int64 key → key < 0 → fold_up fuel key 0 = None.
Proof.
  intros Hi Hneg. induction fuel as [|f IH]; cbn [fold_up].
  - destruct (Z.ltb_spec key 0); [done | lia].
  - destruct (Z.ltb_spec key 0); [| lia].
    rewrite add64_id by (rewrite Z.add_0_r; done).
    rewrite Z.add_0_r. exact IH.
Qed.

Lemma next_normal (c : Bconfig) (counter draw : Z) (fuel : nat) :
  Distribution c = "normal" →
  next c counter draw fuel =
    match fold_up fuel (wrap64 draw) (K c) with
    | None => Spin
    | Some k1 =>
        match fold_down fuel k1 (K c) with
        | None => Spin
        | Some k2 => Ret (k2, counter)
        end
    end.
Proof. unfold next. intros ->. reflexivity. Qed.

Lemma next_order (c : Bconfig) (counter draw : Z) (fuel : nat) :
  Distribution c = "order" → next c counter draw fuel = advance c counter.
Proof. unfold next. intros ->. reflexivity. Qed.

Lemma next_uniform (c : Bconfig) (counter draw : Z) (fuel : nat) :
  Distribution c = "uniform" → 1 ≤ K c →
  next c counter draw fuel = Ret (add64 (draw mod K c) (Min c), counter).
Proof.
  unfold next. intros -> Hk. cbn. rewrite Intn_positive by lia. reflexivity.
Qed.

Lemma next_conflict (c : Bconfig) (counter draw : Z) (fuel : nat) :
  Distribution c = "conflict" →
  next c counter draw fuel =
    if draw mod 100 <? Conflicts c then Ret (0, counter) else advance c counter.
Proof. unfold next. intros ->. reflexivity. Qed.

Lemma normal_returns (c : Bconfig) (counter draw : Z) (fuel : nat) :
  Distribution c = "normal" → 1 ≤ K c → in_int64 (K c) →
  Z.abs (wrap64 draw) ≤ Z.of_nat fuel →
  ∃ key, next c counter draw fuel = Ret (key, counter) ∧ 0 ≤ key ≤ K c.
Proof.
  intros Hd Hk Hi Hf. rewrite next_normal by done.
  pose proof (wrap64_range draw) as Hw.
  assert (Hk' : 1 ≤ K c ≤ max_int64) by (unfold in_int64 in Hi; lia).
  destruct (fold_up_returns fuel (wrap64 draw) (K c)) as [k1 E1];
    [done | unfold in_int64 in Hw; lia | lia |].
  rewrite E1.
  destruct (fold_up_range _ _ _ _ Hk' (proj1 Hw) E1) as (H0 & Hn & Hp).
  assert (Hk1 : k1 ≤ max_int64 ∧ k1 - K c ≤ Z.of_nat fuel).
  { destruct (Z.lt_ge_cases (wrap64 draw) 0) as [Hneg|Hpos].
    - specialize (Hn Hneg). lia.
    - specialize (Hp Hpos). unfold in_int64 in Hw. lia. }
  destruct (fold_down_returns fuel k1 (K c)) as [k2 E2]; [lia | lia | lia |].
  rewrite E2. exists k2. split; [done|].
  eapply fold_down_range; [| | exact E2]; lia.
Qed.

(** ** Keys of [next] *)

(** C5, as the code has it: with [K >= 1], a counter in [[-1, K)] (what
    [NewBenchmark] and [next] itself leave there) and [Min + K] within the
    machine integers, [next] returns under [order], under [uniform], and
    under [conflict] when the draw takes the counter branch, a key of
    [[Min, Min + K)] and leaves the counter in range; under [conflict]
    with a draw below [Conflicts] it returns the hot key [0] whatever
    [Min] is. *)
Theorem next_key_in_range (c : Bconfig) (counter draw : Z) (fuel : nat) :
  1 ≤ K c → in_int64 (K c) → in_int64 (Min c) → Min c + K c ≤ two63 →
  -1 ≤ counter < K c →
  (Distribution c = "order" ∨ Distribution c = "uniform" ∨
   (Distribution c = "conflict" ∧ cold_draw c draw) →
   ∃ key cnt', next c counter draw fuel = Ret (key, cnt') ∧
               Min c ≤ key < Min c + K c ∧ -1 ≤ cnt' < K c) ∧
  (Distribution c = "conflict" → ¬ cold_draw c draw →
   next c counter draw fuel = Ret (0, counter)).
Proof.
  intros Hk Hki Hm Hov Hc. split.
  - intros [Hd | [Hd | [Hd Hcold]]].
    + rewrite next_order by done.
      destruct (advance_range c counter) as (key & cnt' & E & Hr & Hn); try done.
      exists key, cnt'. split; [done | lia].
    + rewrite next_uniform by done.
      pose proof (Z.mod_pos_bound draw (K c)) as Hb.
      eexists _, _. split; [reflexivity|].
      rewrite add64_id
        by (unfold in_int64, min_int64, max_int64, two63 in *; lia).
      lia.
    + rewrite next_conflict by done. unfold cold_draw in Hcold.
      destruct (Z.ltb_spec (draw mod 100) (Conflicts c)); [lia|].
      destruct (advance_range c counter) as (key & cnt' & E & Hr & Hn); try done.
      exists key, cnt'. split; [done | lia].
  - intros Hd Hhot. rewrite next_conflict by done. unfold cold_draw in Hhot.
    destruct (Z.ltb_spec (draw mod 100) (Conflicts c)); [done | lia].
Qed.

Lemma next_key_in_range_witness :
  ∃ key cnt',
    next (set_Min 5 (set_K 10 (set_Distribution "order" DefaultBConfig))) 9 0 0
      = Ret (key, cnt') ∧ 5 ≤ key < 5 + 10 ∧ -1 ≤ cnt' < 10.
Proof.
  apply (next_key_in_range
           (set_Min 5 (set_K 10 (set_Distribution "order" DefaultBConfig))) 9 0 0).
  - cbn. lia.
  - unfold in_int64, min_int64, max_int64. cbn. lia.
  - unfold in_int64, min_int64, max_int64. cbn. lia.
  - unfold two63. cbn. lia.
  - cbn. lia.
  - left. reflexivity.
Defined.

(** C5 as stated fails: in the conflict mode with [Min = 5], [K = 10] and
    [Conflicts = 100] the key is [0], outside [[5, 15)]. *)
Lemma conflict_hot_key_outside_range :
  let c := set_Min 5 (set_K 10 (set_Distribution "conflict" DefaultBConfig)) in
  1 ≤ K c ∧ next c (-1) 0 0 = Ret (0, -1) ∧ ¬ (Min c ≤ 0 < Min c + K c).
Proof. cbn. split; [lia|]. split; [reflexivity | lia]. Qed.

(** C6: under the normal distribution with [K >= 1] the two folding loops
    terminate, and every key [next] returns lies in [[0, K]]. *)
Theorem normal_key_folded (c : Bconfig) (counter draw : Z) :
  Distribution c = "normal" → 1 ≤ K c → in_int64 (K c) →
  (∃ fuel key, next c counter draw fuel = Ret (key, counter)) ∧
  (∀ fuel key cnt', next c counter draw fuel = Ret (key, cnt') → 0 ≤ key ≤ K c).
Proof.
  intros Hd Hk Hi. split.
  - exists (Z.to_nat (Z.abs (wrap64 draw))).
    destruct (normal_returns c counter draw (Z.to_nat (Z.abs (wrap64 draw))))
      as (key & E & _); try done; [lia | eauto].
  - intros fuel key cnt'. rewrite next_normal by done.
    pose proof (wrap64_range draw) as Hw. unfold in_int64 in Hw, Hi.
    destruct (fold_up fuel (wrap64 draw) (K c)) as [k1|] eqn:E1; [|discriminate].
    destruct (fold_down fuel k1 (K c)) as [k2|] eqn:E2; [|discriminate].
    intros [= <- <-].
    destruct (fold_up_range fuel (wrap64 draw) (K c) k1) as (H0 & Hn & Hp);
      [lia | lia | done |].
    eapply fold_down_range; [| | exact E2]; [lia|].
    destruct (Z.lt_ge_cases (wrap64 draw) 0) as [Hneg|Hpos].
    + specialize (Hn Hneg). lia.
    + specialize (Hp Hpos). lia.
Qed.

Lemma normal_key_folded_witness :
  0 ≤ 500 ≤ K (set_Distribution "normal" DefaultBConfig).
Proof.
  refine (proj2 (normal_key_folded (set_Distribution "normal" DefaultBConfig)
                   (-1) (-2500) eq_refl _ _) 3%nat 500 (-1) eq_refl).
  - cbn. lia.
  - unfold in_int64, min_int64, max_int64. cbn. lia.
Defined.

(** C7 on the code: the switch of [next] spells its case [zipfan], so the
    distribution name [zipfian] reaches the default branch and is fatal. *)
Theorem next_zipfian_is_fatal (c : Bconfig) (counter draw : Z) (fuel : nat) :
  Distribution c = "zipfian" →
  next c counter draw fuel = Fatal "unknown distribution zipfian".
Proof. unfold next. intros ->. reflexivity. Qed.

Lemma next_zipfian_is_fatal_witness :
  next (set_Distribution "zipfian" DefaultBConfig) (-1) 7 0
    = Fatal "unknown distribution zipfian".
Proof.
  apply (next_zipfian_is_fatal (set_Distribution "zipfian" DefaultBConfig)).
  reflexivity.
Defined.

(** The spelling the switch accepts draws from the Zipf generator. *)
Lemma next_zipfan_draws (c : Bconfig) (counter draw : Z) (fuel : nat) :
  Distribution c = "zipfan" → zipf_nil c = false →
  next c counter draw fuel = Ret (wrap64 (draw mod two64), counter).
Proof. unfold next. intros -> ->. reflexivity. Qed.

(** C10: with [K = 0] the order branch and the counter branch of the
    conflict mode panic on the modulo, and the first folding loop of the
    normal mode runs forever on a negative draw; with [K <= 0] the
    uniform branch panics in [rand.Intn]; with [K >= 1] these branches
    return a key. *)
Theorem next_needs_positive_K (c : Bconfig) (counter draw : Z) :
  in_int64 (K c) →
  (K c = 0 →
   (Distribution c = "order" →
    ∀ fuel, next c counter draw fuel = Panic "runtime error: integer divide by zero") ∧
   (Distribution c = "conflict" → cold_draw c draw →
    ∀ fuel, next c counter draw fuel = Panic "runtime error: integer divide by zero") ∧
   (Distribution c = "normal" → wrap64 draw < 0 →
    ∀ fuel, next c counter draw fuel = Spin)) ∧
  (K c ≤ 0 → Distribution c = "uniform" →
   ∀ fuel, next c counter draw fuel = Panic "invalid argument to Intn") ∧
  (1 ≤ K c →
   Distribution c = "order" ∨ Distribution c = "conflict" ∨
   Distribution c = "normal" ∨ Distribution c = "uniform" →
   ∃ fuel, ∀ fuel', (fuel ≤ fuel')%nat →
     ∃ key cnt', next c counter draw fuel' = Ret (key, cnt')).
Proof.
  intros Hi. split; [|split].
  - intros Hz. repeat split.
    + intros Hd fuel. rewrite next_order by done. by apply advance_zero.
    + intros Hd Hcold fuel. rewrite next_conflict by done. unfold cold_draw in Hcold.
      destruct (Z.ltb_spec (draw mod 100) (Conflicts c)); [lia|].
      by apply advance_zero.
    + intros Hd Hneg fuel. rewrite next_normal by done. rewrite Hz.
      rewrite fold_up_spins; [done | apply wrap64_range | done].
  - intros Hk Hd fuel. unfold next. rewrite Hd. simpl.
    rewrite Intn_nonpositive by done. done.
  - intros Hk [Hd | [Hd | [Hd | Hd]]].
    + exists 0%nat. intros fuel' _. rewrite next_order by done.
      rewrite advance_returns by lia. eauto.
    + exists 0%nat. intros fuel' _. rewrite next_conflict by done.
      destruct (draw mod 100 <? Conflicts c); [eauto|].
      rewrite advance_returns by lia. eauto.
    + exists (Z.to_nat (Z.abs (wrap64 draw))). intros fuel' Hf.
      destruct (normal_returns c counter draw fuel') as (key & E & _);
        try done; [lia | eauto].
    + exists 0%nat. intros fuel' _. rewrite next_uniform by done. eauto.
Qed.

Lemma next_needs_positive_K_witness :
  next (set_K 0 (set_Distribution "order" DefaultBConfig)) (-1) 0 0
    = Panic "runtime error: integer divide by zero".
Proof.
  refine (proj1 (proj1 (next_needs_positive_K
            (set_K 0 (set_Distribution "order" DefaultBConfig)) (-1) 0 _) eq_refl)
            eq_refl 0%nat).
  unfold in_int64, min_int64, max_int64. cbn. lia.
Defined.

(** ** Executions *)

Lemma exec_app (s : state) (l1 l2 : list action) :
  exec s (l1 ++ l2) = exec s l1 ≫= λ s', exec s' l2.
Proof.
  revert s. induction l1 as [|a l1 IH]; intros s; cbn; [done|].
  destruct (step s a); cbn; [apply IH | done].
Qed.

Lemma exec_invariant (P : state → Prop) :
  (∀ s a s', P s → step s a = Some s' → P s') →
  ∀ sched s s', P s → exec s sched = Some s' → P s'.
Proof.
  intros Hstep sched. induction sched as [|a sched IH]; intros s s' HP; cbn.
  - intros [= <-]. done.
  - destruct (step s a) as [s1|] eqn:E; [|discriminate]. eauto.
Qed.

Lemma reachable_invariant (P : state → Prop) (s0 s : state) :
  P s0 → (∀ s a s', P s → step s a = Some s' → P s') → reachable s0 s → P s.
Proof. intros H0 Hstep [sched E]. eapply exec_invariant; eauto. Qed.

Lemma reachable_refl (s : state) : reachable s s.
Proof. exists []. done. Qed.

Lemma reachable_exec (s0 s s' : state) (sched : list action) :
  reachable s0 s → exec s sched = Some s' → reachable s0 s'.
Proof.
  intros [l E] E'. exists (l ++ sched). rewrite exec_app, E. exact E'.
Qed.

(** ** Workers lists *)

Lemma busy_insert (ws : list wstate) (w : nat) (x y : wstate) :
  ws !! w = Some x →
  (busy (<[w := y]> ws) + holding x = busy ws + holding y)%nat.
Proof.
  revert w. induction ws as [|z ws IH]; intros [|w]; simpl; try done.
  - intros [= ->]. lia.
  - intros Hw. specialize (IH w Hw). lia.
Qed.

Lemma recv_keys_insert (ws : list wstate) (w : nat) (x : wstate) :
  ws !! w = Some x →
  ∃ l1 l2, recv_keys ws = l1 ++ recv_key x ++ l2 ∧
           ∀ y, recv_keys (<[w := y]> ws) = l1 ++ recv_key y ++ l2.
Proof.
  revert w. induction ws as [|z ws IH]; intros [|w]; simpl; try done.
  - intros [= ->]. exists [], (recv_keys ws). done.
  - intros Hw. destruct (IH w Hw) as (l1 & l2 & E & Hy).
    exists (recv_key z ++ l1), l2. split.
    + rewrite E, <- app_assoc. done.
    + intros y. rewrite Hy, <- app_assoc. done.
Qed.

Lemma busy_replicate_idle (n : nat) : busy (replicate n idle) = 0%nat.
Proof. induction n; cbn; done. Qed.

Lemma recv_keys_replicate_idle (n : nat) : recv_keys (replicate n idle) = [].
Proof. induction n; cbn; done. Qed.

(** ** The barrier *)

Ltac step_cases H :=
  unfold step in H;
  repeat (case_match; try discriminate);
  unfold orch, generate, rendezvous, worker_take, recv_closed, enter_write,
    write_ret, send_latency, collect, finish in H;
  repeat (case_match; try discriminate);
  simplify_eq.

Ltac count_workers :=
  repeat match goal with
  | H : workers _ !! _ = Some ?x |- context [busy (<[_ := ?y]> _)] =>
      pose proof (busy_insert _ _ _ y H); clear H
  end.

Lemma accounted_step (s s' : state) (a : action) :
  crashed s' = None → accounted s → step s a = Some s' → accounted s'.
Proof.
  intros Hc Hacc H. unfold accounted in *.
  step_cases H; simpl in *; try discriminate.
  all: count_workers.
  all: try match goal with E : keys _ = _ |- _ => rewrite E in * end.
  all: try match goal with E : latencies _ = _ |- _ => rewrite E in * end.
  all: try match goal with E : pc _ = _ |- _ => rewrite E in * end.
  all: unfold holding in *; rewrite ?length_app; simpl in *; lia.
Qed.

Lemma balanced_step (n0 : nat) (s s' : state) (a : action) :
  crashed s' = None → balanced n0 s → step s a = Some s' → balanced n0 s'.
Proof.
  intros Hc Hb H. unfold balanced in *.
  step_cases H; simpl in *; try discriminate.
  all: try match goal with E : pc _ = _ |- _ => rewrite E in * end.
  all: rewrite ?length_app; simpl in *; lia.
Qed.

Ltac split_workers :=
  match goal with
  | H : workers _ !! _ = Some _ |- _ =>
      let l1 := fresh "l1" in let l2 := fresh "l2" in
      let E := fresh "E" in let Hy := fresh "Hy" in
      destruct (recv_keys_insert _ _ _ H) as (l1 & l2 & E & Hy);
      unfold recv_key in E; simpl in E
  end.

Ltac list_shapes :=
  repeat match goal with
  | H : _ ++ _ = [] |- _ => apply app_nil in H; destruct H
  | H : _ ++ _ = [_] |- _ => apply app_singleton in H; destruct H as [[? ?]|[? ?]]
  | H : _ :: _ = [] |- _ => discriminate H
  | H : _ :: _ = [_] |- _ => injection H as ? ?
  end; simplify_eq/=.

Lemma paired_step (s s' : state) (a : action) :
  paired s → step s a = Some s' → paired s'.
Proof.
  intros Hp H. step_cases H; unfold paired, pending in *; simpl in *.
  all: try match goal with E : pc _ = _ |- _ => rewrite E in *; simpl in * end.
  all: try split_workers.
  all: try match goal with Hy : ∀ y, recv_keys (<[_ := y]> _) = _ |- _ => rewrite !Hy end.
  all: unfold recv_key; simpl.
  all: try match goal with E : recv_keys _ = _ |- _ => rewrite E in * end.
  all: try match goal with E : keys _ = _ |- _ => rewrite E in * end.
  all: try done.
  all: try destruct (at_send_seq (pc s)) eqn:?.
  all: destruct_and?; try match goal with H : ∃ _, _ |- _ => destruct H as (? & ? & ?) end.
  all: destruct_or?; list_shapes.
  all: try match goal with E : keys _ = _ |- _ => rewrite E in * end.
  all: rewrite ?app_nil_r; simpl.
  all: try (split; [by auto|]); eauto 10.
  all: try match goal with
       | E : pc _ = _, E2 : at_send_seq (pc _) = _ |- _ => rewrite E in E2; discriminate
       end.
  all: try match goal with
       | E : submitted _ = _, E2 : recv_keys _ = [] |- _ => rewrite E, E2; by eauto
       end.
  all: try match goal with
       | E : seq_closed ?s = true, E2 : seq_closed ?s = true → _ |- _ =>
           specialize (E2 E); destruct (pc s); discriminate
       end.
Qed.

(** ** Start states *)

Lemma start_accounted (p : phase) (c : Bconfig) (cnt g : Z) (lat : list Z) :
  accounted (start p c cnt g lat).
Proof.
  unfold accounted, start. simpl. rewrite busy_replicate_idle.
  destruct p; reflexivity.
Qed.

Lemma start_balanced (p : phase) (c : Bconfig) (cnt g : Z) (lat : list Z) :
  balanced (length (latency (start p c cnt g lat))) (start p c cnt g lat).
Proof. unfold balanced, start. simpl. destruct p; simpl; lia. Qed.

Lemma start_paired (p : phase) (c : Bconfig) (cnt g : Z) (lat : list Z) :
  paired (start p c cnt g lat).
Proof.
  unfold paired, pending, start. simpl. rewrite recv_keys_replicate_idle.
  split; [discriminate | done].
Qed.

Lemma reachable_paired (s0 s : state) : paired s0 → reachable s0 s → paired s.
Proof.
  intros H0 Hr. apply (reachable_invariant paired s0 s H0); [|done].
  intros s1 a s2 Hp Hs. eapply paired_step; eauto.
Qed.

Lemma step_crashed (s s' : state) (a : action) :
  step s a = Some s' → crashed s = None.
Proof. unfold step. destruct (crashed s); [discriminate | done]. Qed.

Lemma exec_crashed (sched : list action) (s s' : state) :
  exec s sched = Some s' → crashed s' = None → crashed s = None.
Proof.
  revert s. induction sched as [|a sched IH]; intros s; simpl.
  - intros [= <-]. done.
  - destruct (step s a) as [s1|] eqn:E; [|discriminate].
    intros _ _. eapply step_crashed; eauto.
Qed.

(** ** Sequence numbers *)

Lemma wrap64_add_idem (a b : Z) : wrap64 (wrap64 a + b) = wrap64 (a + b).
Proof.
  unfold wrap64. f_equal.
  replace ((a + two63) mod two64 - two63 + b + two63)
    with ((a + two63) mod two64 + b) by lia.
  rewrite Zplus_mod_idemp_l. f_equal. lia.
Qed.

Lemma numbered_step (g : Z) (s s' : state) (a : action) :
  numbered g s → step s a = Some s' → numbered g s'.
Proof.
  intros Hnum H. step_cases H; destruct Hnum as [Hg Hn]; unfold numbered; simpl.
  all: try (split; [exact Hg | exact Hn]).
  unfold next_seq. destruct (ph s) eqn:Hph; simpl.
  - split; [done|]. intros j k0 q [Hl | [_ Hl]]%lookup_app_Some.
    + eapply Hn; eauto.
    + destruct (j - length (submitted s))%nat; simplify_eq/=. done.
  - assert (Hnew : add64 (globalCouner s) 1
                   = wrap64 (g + 1 + Z.of_nat (length (submitted s)))).
    { unfold add64. rewrite Hg, wrap64_add_idem. f_equal. lia. }
    split.
    + rewrite Hnew, length_app. simpl. f_equal. lia.
    + intros j k0 q [Hl | [Hj Hl]]%lookup_app_Some.
      * eapply Hn; eauto.
      * destruct (j - length (submitted s))%nat eqn:Hd; simplify_eq/=.
        rewrite Hnew. f_equal. lia.
Qed.

Lemma start_numbered (p : phase) (c : Bconfig) (cnt g : Z) (lat : list Z) :
  in_int64 g → numbered g (start p c cnt g lat).
Proof.
  intros Hg. unfold numbered, start. simpl. split; [|done].
  destruct p; [done|]. rewrite Z.add_0_r, wrap64_id; done.
Qed.

Lemma reachable_numbered (p : phase) (c : Bconfig) (cnt g : Z) (lat : list Z)
    (s : state) :
  in_int64 g → reachable (start p c cnt g lat) s → numbered g s.
Proof.
  intros Hg Hr.
  apply (reachable_invariant (numbered g) _ s (start_numbered p c cnt g lat Hg));
    [|done].
  intros s1 a s2 Hn Hs. eapply numbered_step; eauto.
Qed.

Lemma ph_step (s s' : state) (a : action) :
  step s a = Some s' → ph s' = ph s ∧ cfg s' = cfg s.
Proof. intros H. step_cases H; done. Qed.

Lemma reachable_ph (s0 s : state) :
  reachable s0 s → ph s = ph s0 ∧ cfg s = cfg s0.
Proof.
  intros Hr.
  apply (reachable_invariant (λ s, ph s = ph s0 ∧ cfg s = cfg s0) s0 s); [done| |done].
  intros s1 a s2 [Hp Hc] Hs. destruct (ph_step _ _ _ Hs) as [-> ->]. done.
Qed.

(** A list of integers whose [j]-th element is [m + j]. *)
Lemma consecutive_seqZ (m : Z) (l : list Z) :
  (∀ j x, l !! j = Some x → x = m + Z.of_nat j) →
  l = seqZ m (Z.of_nat (length l)).
Proof.
  intros Hl. apply list_eq. intros i.
  destruct (l !! i) as [x|] eqn:E.
  - rewrite (Hl _ _ E). symmetry. apply lookup_seqZ_lt.
    apply lookup_lt_Some in E. lia.
  - symmetry. apply lookup_seqZ_ge. apply lookup_ge_None in E. lia.
Qed.

Lemma constant_replicate (g : Z) (l : list Z) :
  (∀ j x, l !! j = Some x → x = g) → l = replicate (length l) g.
Proof.
  intros Hl. induction l as [|x l IH]; simpl; [done|].
  rewrite (Hl 0%nat x eq_refl). f_equal. apply IH.
  intros j y Hj. apply (Hl (S j) y Hj).
Qed.

Lemma dispatched_prefix (s : state) :
  paired s →
  dispatched s = take (length (dispatched s)) (submitted s) ∧
  (length (submitted s) ≤ S (length (dispatched s)))%nat.
Proof.
  intros [_ Hp]. destruct (at_send_seq (pc s)).
  - destruct Hp as (k & -> & _). rewrite take_app_length, length_app. simpl.
    split; [done | lia].
  - destruct Hp as [-> _]. rewrite firstn_all. split; [done | lia].
Qed.

Lemma dispatched_lookup (s : state) (j : nat) (x : Z * Z) :
  paired s → dispatched s !! j = Some x → submitted s !! j = Some x.
Proof.
  intros Hp Hj. destruct (dispatched_prefix s Hp) as [E _].
  rewrite E in Hj. apply lookup_take_Some in Hj. tauto.
Qed.

Lemma seq_of_exact (p : phase) (g : Z) (j n : nat) :
  in_int64 g → (j < n)%nat → g + Z.of_nat n ≤ max_int64 →
  seq_of p g j = match p with LoadPhase => g | RunPhase => g + 1 + Z.of_nat j end.
Proof.
  intros Hg Hj Hn. destruct p; simpl; [done|].
  apply wrap64_id. unfold in_int64, min_int64, max_int64 in *. lia.
Qed.

Lemma numbers_of_list (p : phase) (g : Z) (n : nat) (l : list (Z * Z)) :
  in_int64 g → (length l ≤ n)%nat → g + Z.of_nat n ≤ max_int64 →
  (∀ j k q, l !! j = Some (k, q) → q = seq_of p g j) →
  l.*2 = match p with
         | LoadPhase => replicate (length l) g
         | RunPhase => seqZ (g + 1) (Z.of_nat (length l))
         end.
Proof.
  intros Hg Hlen Hn Hl.
  assert (Hq : ∀ j q, l.*2 !! j = Some q →
               q = match p with LoadPhase => g | RunPhase => g + 1 + Z.of_nat j end).
  { intros j q Hj. apply list_lookup_fmap_Some in Hj as ([k q'] & -> & Hj).
    simpl. rewrite (Hl _ _ _ Hj). apply (seq_of_exact p g j n); [done | | done].
    apply lookup_lt_Some in Hj. lia. }
  destruct p.
  - rewrite <- (length_fmap snd l). by apply constant_replicate.
  - rewrite <- (length_fmap snd l). by apply consecutive_seqZ.
Qed.

(** ** Calls of [db.Write] *)

Lemma got_pairs_insert (ws : list wstate) (w : nat) (x : wstate) :
  ws !! w = Some x →
  ∃ l1 l2, got_pairs ws = l1 ++ got_pair x ++ l2 ∧
           ∀ y, got_pairs (<[w := y]> ws) = l1 ++ got_pair y ++ l2.
Proof.
  revert w. induction ws as [|z ws IH]; intros [|w]; simpl; try done.
  - intros [= ->]. exists [], (got_pairs ws). done.
  - intros Hw. destruct (IH w Hw) as (l1 & l2 & E & Hy).
    exists (got_pair z ++ l1), l2. split.
    + rewrite E, <- app_assoc. done.
    + intros y. rewrite Hy, <- app_assoc. done.
Qed.

Lemma got_pairs_replicate_idle (n : nat) : got_pairs (replicate n idle) = [].
Proof. induction n; cbn; done. Qed.

Lemma entered_step (s s' : state) (a : action) :
  entered s → step s a = Some s' → entered s'.
Proof.
  intros He H. unfold entered in *.
  step_cases H; simpl; try done.
  all: match goal with
       | Hw : workers _ !! _ = Some _ |- _ =>
           destruct (got_pairs_insert _ _ _ Hw) as (l1 & l2 & E & Hy);
           unfold got_pair in E; simpl in E; rewrite Hy; rewrite E in He
       end.
  all: unfold got_pair; simpl; rewrite He; solve_Permutation.
Qed.

Lemma start_entered (p : phase) (c : Bconfig) (cnt g : Z) (lat : list Z) :
  entered (start p c cnt g lat).
Proof. unfold entered, start. simpl. by rewrite got_pairs_replicate_idle. Qed.

Lemma reachable_entered (s0 s : state) : entered s0 → reachable s0 s → entered s.
Proof.
  intros H0 Hr. apply (reachable_invariant entered s0 s H0); [|done].
  intros s1 a s2 Hp Hs. eapply entered_step; eauto.
Qed.

(** Every call of [db.Write] is made with a received pair, and no received
    pair serves two calls. *)
Lemma calls_are_received (p : phase) (c : Bconfig) (cnt g : Z) (lat : list Z)
    (s : state) :
  reachable (start p c cnt g lat) s → called s ⊆+ dispatched s.
Proof.
  intros Hr.
  assert (He : entered s) by (eapply reachable_entered; [apply start_entered | exact Hr]).
  unfold entered in He. rewrite He. by apply submseteq_inserts_r.
Qed.

Lemma calls_are_submitted (p : phase) (c : Bconfig) (cnt g : Z) (lat : list Z)
    (s : state) :
  reachable (start p c cnt g lat) s → called s ⊆+ submitted s.
Proof.
  intros Hr. transitivity (dispatched s); [by eapply calls_are_received|].
  assert (Hp : paired s) by (eapply reachable_paired; [apply start_paired | exact Hr]).
  destruct (dispatched_prefix s Hp) as [E _]. rewrite E. apply submseteq_take.
Qed.

Lemma submseteq_NoDup {A : Type} (l k : list A) : l ⊆+ k → NoDup k → NoDup l.
Proof.
  intros Hs Hk. apply submseteq_Permutation in Hs as [r Hr].
  rewrite Hr in Hk. by apply NoDup_app in Hk as [? _].
Qed.

(** ** Pairing of keys and sequence numbers *)

(** C4: whatever the schedule, the workers receive, in order, the keys in
    the order of their generation, each with the sequence number that was
    assigned when the key was sent, and at most the last submission has
    not been received yet; a call of [db.Write] is made with the pair its
    worker has received, so every call carries the key and the sequence
    number of one submission, and no submission serves two calls. *)
Theorem write_gets_assigned_sequence (p : phase) (c : Bconfig) (cnt g : Z)
    (lat : list Z) (s : state) :
  reachable (start p c cnt g lat) s →
  dispatched s = take (length (dispatched s)) (submitted s) ∧
  (length (submitted s) ≤ S (length (dispatched s)))%nat ∧
  called s ⊆+ submitted s.
Proof.
  intros Hr.
  assert (Hp : paired s) by (eapply reachable_paired; [apply start_paired | exact Hr]).
  destruct (dispatched_prefix s Hp) as [E Hlen].
  split; [exact E|]. split; [exact Hlen|]. by eapply calls_are_submitted.
Qed.

Lemma write_gets_assigned_sequence_witness :
  dispatched (run_to (fresh RunPhase count_cfg) overtaking_sched)
  = take 3 (submitted (run_to (fresh RunPhase count_cfg) overtaking_sched)) ∧
  (length (submitted (run_to (fresh RunPhase count_cfg) overtaking_sched)) ≤ 4)%nat ∧
  called (run_to (fresh RunPhase count_cfg) overtaking_sched)
  ⊆+ submitted (run_to (fresh RunPhase count_cfg) overtaking_sched).
Proof.
  apply (write_gets_assigned_sequence RunPhase count_cfg (-1) (-1) []
           (run_to (fresh RunPhase count_cfg) overtaking_sched)).
  exists overtaking_sched. vm_compute. reflexivity.
Defined.

(** C3, as the code has it: in [Run] the sequence numbers of the
    submissions are [g + 1, g + 2, ...] in the order of generation, where
    [g] is [b.globalCouner] when the run starts ([-1] after
    [NewBenchmark]), as long as the counter does not overflow, and the
    workers receive them in that order; every call of [db.Write], in
    whatever order the workers enter their calls, is made with one of the
    received pairs, and no two calls with the same number.  In [Load],
    whose increment is commented out, every submission and every call
    carries the unchanged [g]. *)
Theorem sequence_numbers_of_calls (p : phase) (c : Bconfig) (cnt g : Z)
    (lat : list Z) (s : state) :
  in_int64 g → reachable (start p c cnt g lat) s →
  g + Z.of_nat (length (submitted s)) ≤ max_int64 →
  (submitted s).*2
  = match p with
    | LoadPhase => replicate (length (submitted s)) g
    | RunPhase => seqZ (g + 1) (Z.of_nat (length (submitted s)))
    end ∧
  (dispatched s).*2
  = match p with
    | LoadPhase => replicate (length (dispatched s)) g
    | RunPhase => seqZ (g + 1) (Z.of_nat (length (dispatched s)))
    end ∧
  called s ⊆+ dispatched s ∧
  match p with
  | LoadPhase => ∀ k q, (k, q) ∈ called s → q = g
  | RunPhase => NoDup (called s).*2
  end.
Proof.
  intros Hg Hr Hov.
  pose proof (reachable_numbered p c cnt g lat s Hg Hr) as [_ Hn].
  destruct (reachable_ph _ _ Hr) as [Hph _]. simpl in Hph. rewrite Hph in Hn.
  assert (Hp : paired s) by (eapply reachable_paired; [apply start_paired | exact Hr]).
  pose proof (calls_are_received p c cnt g lat s Hr) as Hc.
  assert (Hd : (dispatched s).*2
               = match p with
                 | LoadPhase => replicate (length (dispatched s)) g
                 | RunPhase => seqZ (g + 1) (Z.of_nat (length (dispatched s)))
                 end).
  { apply (numbers_of_list p g (length (submitted s))); auto.
    - destruct (dispatched_prefix s Hp) as [E _].
      rewrite E, length_take. lia.
    - intros j k q Hj. apply (Hn j k q). by apply dispatched_lookup. }
  split; [|split; [exact Hd|split; [exact Hc|]]].
  - apply (numbers_of_list p g (length (submitted s))); auto.
  - destruct p.
    + intros k q Hx.
      assert (Hq : q ∈ (dispatched s).*2).
      { apply list_elem_of_fmap. exists (k, q). split; [done|].
        eapply elem_of_submseteq; eauto. }
      rewrite Hd in Hq. by apply elem_of_replicate in Hq as [-> _].
    + apply (submseteq_NoDup _ ((dispatched s).*2)).
      * by apply fmap_submseteq.
      * rewrite Hd. apply NoDup_seqZ.
Qed.

Lemma sequence_numbers_of_calls_witness :
  (submitted (run_to (fresh RunPhase count_cfg) overtaking_sched)).*2 = seqZ 0 3 ∧
  (dispatched (run_to (fresh RunPhase count_cfg) overtaking_sched)).*2 = seqZ 0 3 ∧
  called (run_to (fresh RunPhase count_cfg) overtaking_sched)
  ⊆+ dispatched (run_to (fresh RunPhase count_cfg) overtaking_sched) ∧
  NoDup (called (run_to (fresh RunPhase count_cfg) overtaking_sched)).*2.
Proof.
  apply (sequence_numbers_of_calls RunPhase count_cfg (-1) (-1) []
           (run_to (fresh RunPhase count_cfg) overtaking_sched)).
  - unfold in_int64, min_int64, max_int64. lia.
  - exists overtaking_sched. vm_compute. reflexivity.
  - vm_compute. discriminate.
Defined.

(** C3 as stated fails for [Load]: both calls of [db.Write] of a load of
    two keys are made with the sequence number [-1]. *)
Lemma load_repeats_sequence_number :
  called <$> exec (fresh LoadPhase load_cfg) load_sched
  = Some [(0, -1); (1, -1)].
Proof. vm_compute. reflexivity. Qed.

(** X18: the calls of [db.Write] need not be entered in the order of
    their sequence numbers: with two workers, the worker that has received
    the number [2] can enter [db.Write] before the worker that has
    received the number [1]. *)
Theorem calls_can_overtake :
  (λ s, (dispatched s, called s))
    <$> exec (fresh RunPhase count_cfg) overtaking_sched
  = Some ([(0, 0); (1, 1); (2, 2)], [(0, 0); (2, 2); (1, 1)]).
Proof. vm_compute. reflexivity. Qed.

(** ** The loop of [Load] *)

Lemma load_progress_step (c : Bconfig) (s s' : state) (a : action) :
  in_int64 (Min c) → load_progress c s → step s a = Some s' → load_progress c s'.
Proof.
  intros Hm Hl H. step_cases H; destruct Hl as (Hph & Hcfg & Hl);
    unfold load_progress; simpl; rewrite ?Hcfg in *; simpl in *.
  all: try match goal with E : pc _ = _ |- _ => rewrite E in *; simpl in * end.
  all: try (split; [done|]; split; [done|]).
  all: try done.
  all: try congruence.
  - apply Z.ltb_lt in H4. destruct Hl as (Hlo & _ & Hs).
    split; [done|]. split; [lia | done].
  - apply Z.ltb_ge in H4. destruct Hl as (Hlo & [Hhi | ->] & ->).
    + f_equal. lia.
    + rewrite Z.sub_diag. symmetry. apply seqZ_nil. lia.
  - destruct Hl as (-> & Hr & Hs). split; [done|].
    rewrite fmap_app, Hs. simpl.
    replace (i + 1 - Min c) with ((i - Min c) + 1) by lia.
    rewrite seqZ_app by lia. simpl. f_equal.
    rewrite seqZ_cons, seqZ_nil by lia. f_equal. lia.
  - destruct Hl as (Hr & Hs). unfold bump. rewrite Hph.
    pose proof (wrap64_range (Min c + K c)) as Hw. fold (add64 (Min c) (K c)) in Hw.
    rewrite add64_id by (unfold in_int64, min_int64, max_int64 in *; lia).
    split; [lia|]. split; [lia | done].
Qed.

Lemma start_load_progress (c : Bconfig) (cnt g : Z) (lat : list Z) :
  load_progress c (start LoadPhase c cnt g lat).
Proof.
  unfold load_progress, start. simpl. split; [done|]. split; [done|].
  split; [lia|]. split; [by right|]. rewrite Z.sub_diag. done.
Qed.

Lemma reachable_load_progress (c : Bconfig) (cnt g : Z) (lat : list Z) (s : state) :
  in_int64 (Min c) → reachable (start LoadPhase c cnt g lat) s → load_progress c s.
Proof.
  intros Hm Hr.
  apply (reachable_invariant (load_progress c) _ s (start_load_progress c cnt g lat));
    [|done].
  intros s1 a s2 Hl Hs. eapply load_progress_step; eauto.
Qed.

(** The keys [Load] has submitted so far are consecutive from [Min]. *)
Lemma load_progress_keys (c : Bconfig) (s : state) :
  load_progress c s →
  (submitted s).*1 = seqZ (Min c) (Z.of_nat (length (submitted s))) ∧
  ∀ k, k ∈ (submitted s).*1 → Min c ≤ k < add64 (Min c) (K c).
Proof.
  intros (_ & _ & Hl).
  assert (∃ n, (submitted s).*1 = seqZ (Min c) n ∧
               (0 < n → Min c + n ≤ add64 (Min c) (K c))) as (n & Hs & Hn).
  { destruct (pc s); destruct_and?; eexists; (split; [eassumption | lia]). }
  split.
  - rewrite <- (length_fmap fst), Hs, length_seqZ.
    destruct (Z.le_gt_cases n 0) as [Hle|Hgt].
    + rewrite !seqZ_nil; [done | lia | done].
    + f_equal. lia.
  - intros k Hk. rewrite Hs in Hk.
    apply list_elem_of_lookup in Hk as [j Hj].
    apply lookup_seqZ in Hj as [-> Hj]. lia.
Qed.

(** ** Reporting behind the barrier *)

Lemma drained_step (s s' : state) (a : action) :
  accounted s → drained s → step s a = Some s' → drained s'.
Proof.
  intros Ha Hd H. unfold accounted in Ha.
  step_cases H; unfold drained, waits_for_barrier in *; simpl in *.
  all: intros Hw; specialize (Hd Hw); destruct Hd as [Hd1 Hd2].
  all: try match goal with E : latencies _ = _ |- _ => rewrite E in Ha; simpl in Ha end.
  all: split; [| intros l0 Hl0].
  all: try match goal with
       | Hl : report _ = Some _ |- _ =>
           destruct (Hd2 _ Hl) as [Hpc ->]; rewrite Hpc in *; simpl in *
       end.
  all: try match goal with E : pc _ = _ |- _ => rewrite E in *; simpl in * end.
  all: try match goal with E : ph _ = _ |- _ => rewrite E in *; simpl in * end.
  all: try done.
  all: try lia.
  all: try (by auto).
  all: try (injection Hl0 as <-; by auto).
  all: try (destruct (pc s); try done; try lia; intros Hph; specialize (Hd1 Hph); lia).
Qed.

Lemma start_drained (p : phase) (c : Bconfig) (cnt g : Z) (lat : list Z) :
  drained (start p c cnt g lat).
Proof. unfold drained, start. simpl. intros _. done. Qed.

Lemma exec_barrier (n0 : nat) (sched : list action) (s s' : state) :
  accounted s → balanced n0 s → drained s →
  exec s sched = Some s' → crashed s' = None →
  accounted s' ∧ balanced n0 s' ∧ drained s'.
Proof.
  revert s. induction sched as [|a sched IH]; intros s Ha Hb Hd; simpl.
  - intros [= <-]. done.
  - destruct (step s a) as [s1|] eqn:E; [|discriminate]. intros E' Hc.
    assert (Hc1 : crashed s1 = None) by (eapply exec_crashed; eauto).
    apply (IH s1); eauto using accounted_step, balanced_step, drained_step.
Qed.

Lemma reachable_barrier (p : phase) (c : Bconfig) (cnt g : Z) (lat : list Z)
    (s : state) :
  reachable (start p c cnt g lat) s → crashed s = None →
  accounted s ∧ balanced (length (latency (start p c cnt g lat))) s ∧ drained s.
Proof.
  intros [sched E] Hc.
  eapply exec_barrier; eauto using start_accounted, start_balanced, start_drained.
Qed.

(** What a return of [db.Write] does to the worker that called it. *)
Lemma write_ret_failure (s s' : state) (w : nat) (e : error) (t0 t1 : Z) :
  step s (AWriteRet w (Some e) t0 t1) = Some s' →
  errlog s' = errlog s ++ [e] ∧
  ops s' = ops s ++ [mkOp t0 max_int64] ∧
  (∃ k q, returned s' = returned s ++ [(k, q, Some e)]) ∧
  latencies s' = latencies s ∧ latency s' = latency s ∧ wait s' = wait s ∧
  workers s' !! w = Some (mkW WIdle (Some e)).
Proof.
  intros H. unfold step in H. destruct (crashed s); [discriminate|].
  unfold write_ret in H.
  destruct (workers s !! w) as [[[] err]|] eqn:Hw; try discriminate.
  injection H as <-. simpl. repeat split; eauto.
  apply list_lookup_insert_eq. by eapply lookup_lt_Some.
Qed.

Lemma write_ret_success (s s' : state) (w : nat) (t0 t1 : Z) :
  step s (AWriteRet w None t0 t1) = Some s' →
  errlog s' = errlog s ∧
  ops s' = ops s ++ [mkOp t0 t1] ∧
  workers s' !! w = Some (mkW (WSend (t1 - t0)) None).
Proof.
  intros H. unfold step in H. destruct (crashed s); [discriminate|].
  unfold write_ret in H.
  destruct (workers s !! w) as [[[] err]|] eqn:Hw; try discriminate.
  injection H as <-. simpl. repeat split; eauto.
  apply list_lookup_insert_eq. by eapply lookup_lt_Some.
Qed.

(** What the code keeps account of: a write that returns an error is
    logged, its operation ends at the sentinel, and its worker sends no
    latency; the barrier is raised once per submitted key and lowered once
    per latency the collector appends; [Load] and the count-based [Run]
    compute their statistics only with the barrier at zero, that is with
    one collected latency per submitted key. *)
Theorem barrier_accounting (p : phase) (c : Bconfig) (cnt g : Z) (lat : list Z)
    (s : state) :
  reachable (start p c cnt g lat) s → crashed s = None →
  (∀ w e t0 t1 s', step s (AWriteRet w (Some e) t0 t1) = Some s' →
     errlog s' = errlog s ++ [e] ∧
     ops s' = ops s ++ [mkOp t0 max_int64] ∧
     latencies s' = latencies s ∧ latency s' = latency s ∧
     workers s' !! w = Some (mkW WIdle (Some e))) ∧
  (∀ w t0 t1 s', step s (AWriteRet w None t0 t1) = Some s' →
     errlog s' = errlog s ∧
     ops s' = ops s ++ [mkOp t0 t1] ∧
     workers s' !! w = Some (mkW (WSend (t1 - t0)) None)) ∧
  wait s + Z.of_nat (length (latency s))
  = Z.of_nat (length (latency (start p c cnt g lat)) + length (submitted s)
              + at_send_key (pc s)) ∧
  (waits_for_barrier s = true → ∀ l, report s = Some l →
     wait s = 0 ∧ l = latency s ∧
     length l = (length (latency (start p c cnt g lat)) + length (submitted s))%nat).
Proof.
  intros Hr Hc. destruct (reachable_barrier p c cnt g lat s Hr Hc) as (Ha & Hb & Hd).
  split; [|split; [|split]].
  - intros w e t0 t1 s' Hs. apply write_ret_failure in Hs. tauto.
  - intros w t0 t1 s' Hs. by apply write_ret_success in Hs.
  - exact Hb.
  - intros Hw l Hl. destruct (Hd Hw) as [Hpc Hrep].
    destruct (Hrep l Hl) as [Hdone ->]. rewrite Hdone in Hpc.
    unfold balanced in Hb. rewrite Hdone in Hb. cbn [at_send_key] in Hb.
    split; [done|]. split; [done|]. lia.
Qed.

Lemma barrier_accounting_witness :
  wait (run_to (fresh RunPhase count_cfg) count_sched) = 0 ∧
  [4; 4; 4] = latency (run_to (fresh RunPhase count_cfg) count_sched) ∧
  length [4; 4; 4]
  = (0 + length (submitted (run_to (fresh RunPhase count_cfg) count_sched)))%nat.
Proof.
  refine (proj2 (proj2 (proj2
    (barrier_accounting RunPhase count_cfg (-1) (-1) []
       (run_to (fresh RunPhase count_cfg) count_sched) _ eq_refl))) eq_refl
       [4; 4; 4] eq_refl).
  exists count_sched. vm_compute. reflexivity.
Defined.

(** C1 on the code: the error branch of [worker] never reaches
    [b.wait.Done()].  After the one write of a count-based run has
    returned an error, the error is logged, the operation ends at the
    sentinel and no latency exists, but the barrier stays raised: the
    orchestrator stands at [b.wait.Wait()], no goroutine can move, and
    no statistics are reported.  In a timed run with the same failing
    write the statistics are computed with the barrier still raised. *)
Theorem failed_write_never_resolves_barrier :
  (let s := run_to (fresh RunPhase fail_cfg) fail_sched in
   exec (fresh RunPhase fail_cfg) fail_sched = Some s ∧
   submitted s = [(0, 0)] ∧
   returned s = [(0, 0, Some "write failed")] ∧
   errlog s = ["write failed"] ∧
   ops s = [mkOp 5 max_int64] ∧
   latency s = [] ∧ latencies s = [] ∧ report s = None ∧
   wait s = 1 ∧ pc s = OWait ∧
   ∀ a, step s a = None) ∧
  (let s := run_to (fresh RunPhase timed_cfg) timed_fail_sched in
   exec (fresh RunPhase timed_cfg) timed_fail_sched = Some s ∧
   submitted s = [(0, 0)] ∧
   returned s = [(0, 0, Some "write failed")] ∧
   wait s = 1 ∧ report s = Some []).
Proof.
  split; cbv zeta.
  - do 10 (split; [vm_compute; reflexivity|]).
    intros a. destruct a as [f d u | w | w coin t0 t1 | w | w | w res t0 t1 | w |];
      try (destruct w as [|w]); vm_compute; reflexivity.
  - do 4 (split; [vm_compute; reflexivity|]). vm_compute. reflexivity.
Qed.

(** ** The error a worker holds *)

Lemma holds_error_step (w : nat) (s s' : state) (a : action) :
  (∀ t0 t1, a ≠ AWriteRet w None t0 t1) →
  holds_error w s → step s a = Some s' → holds_error w s'.
Proof.
  intros Hne (x & e & Hx & He) H. unfold holds_error.
  step_cases H; simpl; eauto.
  all: match goal with
       | Hw : workers _ !! ?w0 = Some _ |- context [<[?w0 := ?y]> _] =>
           destruct (decide (w0 = w)) as [->|Hd];
           [ rewrite list_lookup_insert_eq by (by eapply lookup_lt_Some);
             rewrite Hx in Hw; injection Hw as ->; simpl in *; simplify_eq
           | rewrite list_lookup_insert_ne by done ]
       end; eauto.
  exfalso. by eapply Hne.
Qed.

Lemma holds_error_exec (w : nat) (sched : list action) (s s' : state) :
  no_success_for w sched → holds_error w s → exec s sched = Some s' →
  holds_error w s'.
Proof.
  revert s. induction sched as [|a sched IH]; intros s Hn Hh; simpl.
  - intros [= <-]. done.
  - destruct (step s a) as [s1|] eqn:E; [|discriminate].
    apply Forall_cons in Hn as [Ha Hn]. intros E'.
    apply (IH s1); eauto using holds_error_step.
Qed.

Lemma errlog_step (s s' : state) (a : action) :
  step s a = Some s' → (length (errlog s) ≤ length (errlog s'))%nat.
Proof. intros H. step_cases H; simpl; rewrite ?length_app; lia. Qed.

Lemma errlog_exec (sched : list action) (s s' : state) :
  exec s sched = Some s' → (length (errlog s) ≤ length (errlog s'))%nat.
Proof.
  revert s. induction sched as [|a sched IH]; intros s; simpl.
  - intros [= <-]. done.
  - destruct (step s a) as [s1|] eqn:E; [|discriminate]. intros E'.
    apply errlog_step in E. apply IH in E'. lia.
Qed.

(** A read no-op of a worker that holds an error. *)
Lemma read_with_error (s : state) (w : nat) (e : error) (coin r0 r1 : Z) :
  crashed s = None → workers s !! w = Some (mkW WIdle (Some e)) →
  keys s ≠ [] → coin_below coin (W (cfg s)) = false →
  ∃ s', step s (ATake w coin r0 r1) = Some s' ∧
        errlog s' = errlog s ++ [e] ∧
        ops s' = ops s ++ [mkOp r0 max_int64] ∧
        latencies s' = latencies s ∧ latency s' = latency s ∧
        wait s' = wait s ∧
        workers s' !! w = Some (mkW WIdle (Some e)).
Proof.
  intros Hc Hw Hk Hcoin. unfold step, worker_take. rewrite Hc, Hw.
  destruct (keys s) as [|k rest]; [done|]. rewrite Hcoin.
  eexists. split; [reflexivity|]. simpl. repeat split.
  apply list_lookup_insert_eq. by eapply lookup_lt_Some.
Qed.

(** C9: after [db.Write] has returned an error to a worker, and as long
    as no write of this worker succeeds, a read no-op of the worker takes
    the error branch: the held error is logged again, the operation ends
    at the sentinel, no latency is sent, the barrier is left as it is,
    and it never comes down to zero afterwards. *)
Theorem failed_write_poisons_reads (p : phase) (c : Bconfig) (cnt g : Z)
    (lat : list Z) (s1 s2 s3 : state) (w : nat) (e : error) (t0 t1 : Z)
    (sched : list action) (coin r0 r1 : Z) :
  reachable (start p c cnt g lat) s1 →
  step s1 (AWriteRet w (Some e) t0 t1) = Some s2 →
  no_success_for w sched → exec s2 sched = Some s3 → crashed s3 = None →
  (∃ x, workers s3 !! w = Some x ∧ w_pc x = WIdle) → keys s3 ≠ [] →
  coin_below coin (W (cfg s3)) = false →
  ∃ e' s4, step s3 (ATake w coin r0 r1) = Some s4 ∧
    errlog s4 = errlog s3 ++ [e'] ∧
    ops s4 = ops s3 ++ [mkOp r0 max_int64] ∧
    latencies s4 = latencies s3 ∧ latency s4 = latency s3 ∧
    wait s4 = wait s3 ∧
    workers s4 !! w = Some (mkW WIdle (Some e')) ∧
    ∀ sched' s5, exec s4 sched' = Some s5 → crashed s5 = None → 1 ≤ wait s5.
Proof.
  intros Hr Hfail Hno Hex Hc (x & Hx & Hidle) Hk Hcoin.
  assert (Hh2 : holds_error w s2).
  { apply write_ret_failure in Hfail. exists (mkW WIdle (Some e)), e. tauto. }
  destruct (holds_error_exec w sched s2 s3 Hno Hh2 Hex) as (x' & e' & Hx' & He').
  rewrite Hx in Hx'. injection Hx' as <-.
  assert (Hw3 : workers s3 !! w = Some (mkW WIdle (Some e'))).
  { rewrite Hx. destruct x as [xpc xerr]. simpl in *. by subst. }
  destruct (read_with_error s3 w e' coin r0 r1 Hc Hw3 Hk Hcoin)
    as (s4 & Hstep & Hlog & Hops & Hlq & Hlat & Hwait & Hw4).
  exists e', s4. repeat split; try done.
  intros sched' s5 Hex' Hc5.
  assert (Hr5 : reachable (start p c cnt g lat) s5).
  { eapply reachable_exec; [|exact Hex'].
    eapply (reachable_exec _ s3 s4 [ATake w coin r0 r1]);
      [| simpl; by rewrite Hstep].
    eapply reachable_exec; [|exact Hex].
    eapply (reachable_exec _ s1 s2 [AWriteRet w (Some e) t0 t1]);
      [exact Hr | simpl; by rewrite Hfail]. }
  destruct (reachable_barrier p c cnt g lat s5 Hr5 Hc5) as (Ha & _ & _).
  unfold accounted in Ha. apply errlog_exec in Hex'.
  rewrite Hlog, length_app in Hex'. simpl in Hex'. lia.
Qed.

Lemma failed_write_poisons_reads_witness :
  ∃ e' s4,
    step (run_to (fresh RunPhase half_cfg)
            (round 0 (Some "write failed") ++ second_key_sched))
         (ATake 0 high_coin 7 7) = Some s4 ∧
    errlog s4 = ["write failed"] ++ [e'] ∧
    ops s4 = [mkOp 5 max_int64] ++ [mkOp 7 max_int64] ∧
    latencies s4 = [] ∧ latency s4 = [] ∧ wait s4 = 2 ∧
    workers s4 !! 0%nat = Some (mkW WIdle (Some e')) ∧
    ∀ sched' s5, exec s4 sched' = Some s5 → crashed s5 = None → 1 ≤ wait s5.
Proof.
  apply (failed_write_poisons_reads RunPhase half_cfg (-1) (-1) []
           (run_to (fresh RunPhase half_cfg) in_flight_sched)
           (run_to (fresh RunPhase half_cfg) (round 0 (Some "write failed")))
           (run_to (fresh RunPhase half_cfg)
              (round 0 (Some "write failed") ++ second_key_sched))
           0%nat "write failed" 5 9 second_key_sched high_coin 7 7).
  - exists in_flight_sched. vm_compute. reflexivity.
  - vm_compute. reflexivity.
  - repeat constructor; intros; discriminate.
  - vm_compute. reflexivity.
  - vm_compute. reflexivity.
  - exists (mkW WIdle (Some "write failed")). split; vm_compute; reflexivity.
  - vm_compute. discriminate.
  - vm_compute. reflexivity.
Defined.

(** ** The end of the submission loop *)

Lemma past_loop_step (s s' : state) (a : action) :
  step s a = Some s' → past_loop (pc s) = true →
  past_loop (pc s') = true ∧ submitted s' = submitted s.
Proof.
  intros H Hp. step_cases H; simpl in *.
  all: try match goal with E : pc _ = _ |- _ => rewrite E in *; simpl in * end.
  all: try done.
Qed.

Lemma past_loop_exec (sched : list action) (s s' : state) :
  exec s sched = Some s' → past_loop (pc s) = true →
  past_loop (pc s') = true ∧ submitted s' = submitted s.
Proof.
  revert s. induction sched as [|a sched IH]; intros s; simpl.
  - intros [= <-]. done.
  - destruct (step s a) as [s1|] eqn:E; [|discriminate]. intros E' Hp.
    destruct (past_loop_step _ _ _ E Hp) as [Hp1 Hs1].
    destruct (IH s1 E' Hp1) as [Hp2 Hs2]. split; [done | congruence].
Qed.

(** C2, as the code has it: in a timed run the fired timer takes the
    orchestrator out of the loop and nothing is submitted from then on;
    the workers are left as they are and a call of [db.Write] in flight
    can still return; but the orchestrator does not wait: from
    [b.db.Stop()] it goes on to [Statistic(b.latency)] with the latencies
    collected so far, whatever the value of the barrier. *)
Theorem timed_run_cutoff (c : Bconfig) (cnt g : Z) (lat : list Z) (s : state) :
  0 < T c → reachable (start RunPhase c cnt g lat) s → crashed s = None →
  (∀ i draw fuel, pc s = OLoop i →
     ∃ s', step s (AOrch true draw fuel) = Some s' ∧ pc s' = OStop ∧
           submitted s' = submitted s ∧ keys s' = keys s ∧
           workers s' = workers s ∧ wait s' = wait s) ∧
  (past_loop (pc s) = true →
     ∀ sched s', exec s sched = Some s' →
       past_loop (pc s') = true ∧ submitted s' = submitted s) ∧
  (pc s = OStop →
     ∀ f1 d1 u1 f2 d2 u2,
       ∃ s', exec s [AOrch f1 d1 u1; AOrch f2 d2 u2] = Some s' ∧
             pc s' = ODone ∧ report s' = Some (latency s) ∧
             wait s' = wait s ∧ workers s' = workers s) ∧
  (∀ w k q err res t0 t1,
     workers s !! w = Some (mkW (WCalling k q) err) →
     ∃ s', step s (AWriteRet w res t0 t1) = Some s' ∧
           returned s' = returned s ++ [(k, q, res)]).
Proof.
  intros HT Hr Hc. destruct (reachable_ph _ _ Hr) as [Hph Hcfg]. simpl in Hph, Hcfg.
  split; [|split; [|split]].
  - intros i draw fuel Hpc. unfold step, orch. rewrite Hc, Hpc, Hph, Hcfg.
    destruct (Z.ltb_spec 0 (T c)); [|lia].
    eexists. split; [reflexivity|]. done.
  - intros Hp sched s' Hex. eapply past_loop_exec; eauto.
  - intros Hpc f1 d1 u1 f2 d2 u2. unfold exec, step, orch.
    rewrite Hc, Hpc, Hph. simpl. rewrite Hc.
    eexists. split; [reflexivity|]. done.
  - intros w k q err res t0 t1 Hw. unfold step, write_ret. rewrite Hc, Hw.
    eexists. split; [reflexivity|]. destruct res; done.
Qed.

Lemma timed_run_cutoff_witness :
  ∃ s', step (run_to (fresh RunPhase timed_cfg) in_flight_sched)
             (AOrch true 0 0) = Some s' ∧ pc s' = OStop ∧
        submitted s' = [(0, 0)] ∧ keys s' = [] ∧
        workers s' = [mkW (WCalling 0 0) None] ∧ wait s' = 1.
Proof.
  refine (proj1 (timed_run_cutoff timed_cfg (-1) (-1) []
            (run_to (fresh RunPhase timed_cfg) in_flight_sched) _ _ eq_refl)
            0 0 0%nat eq_refl).
  - reflexivity.
  - exists in_flight_sched. vm_compute. reflexivity.
Defined.

(** C2 as stated fails: a timed run whose timer fires while the one
    submitted write is inside [db.Write] computes its statistics over no
    latency at all, with the barrier still raised. *)
Lemma timed_run_reports_before_drain :
  let s := run_to (fresh RunPhase timed_cfg) cutoff_sched in
  exec (fresh RunPhase timed_cfg) cutoff_sched = Some s ∧
  submitted s = [(0, 0)] ∧ returned s = [] ∧
  workers s = [mkW (WCalling 0 0) None] ∧
  wait s = 1 ∧ report s = Some [] ∧ pc s = ODone.
Proof. cbv zeta. do 6 (split; [vm_compute; reflexivity|]). vm_compute. reflexivity. Qed.

(** ** A load that runs to its end *)

Lemma exec_cons (s s1 s' : state) (a : action) (l : list action) :
  step s a = Some s1 → exec s1 l = Some s' → exec s (a :: l) = Some s'.
Proof. intros E1 E2. simpl. rewrite E1. exact E2. Qed.

Ltac open_load H :=
  let Hc := fresh "Hc" in let Hph := fresh "Hph" in let Hcfg := fresh "Hcfg" in
  let Hpc := fresh "Hpc" in let Hk := fresh "Hk" in let Hl := fresh "Hl" in
  let Hlc := fresh "Hlc" in let Hw := fresh "Hw" in let ws := fresh "ws" in
  let Hws := fresh "Hws" in
  destruct H as (Hc & Hph & Hcfg & Hpc & Hk & Hl & Hlc & Hw & ws & Hws);
  unfold step; rewrite Hc.

Ltac close_load :=
  eexists; split; [reflexivity|]; unfold load_at; simpl;
  repeat match goal with E : workers _ = _ |- _ => rewrite E end;
  simpl; repeat split; eauto.

Lemma load_add (c : Bconfig) (i : Z) (f : bool) (d : Z) (u : nat) (s : state) :
  i < add64 (Min c) (K c) → load_at c (OLoop i) [] idle [] 0 s →
  ∃ s', step s (AOrch f d u) = Some s' ∧ load_at c (OSendKey i i) [] idle [] 1 s'.
Proof.
  intros Hi H. open_load H. unfold orch. rewrite Hpc, Hph, Hcfg. simpl.
  apply Z.ltb_lt in Hi. rewrite Hi, Hw. close_load.
Qed.

Lemma load_send_key (c : Bconfig) (i k : Z) (f : bool) (d : Z) (u : nat)
    (x : wstate) (n : Z) (s : state) :
  1 ≤ Concurrency c → load_at c (OSendKey i k) [] x [] n s →
  ∃ s', step s (AOrch f d u) = Some s' ∧ load_at c (OSendSeq i) [k] x [] n s'.
Proof.
  intros Hcon H. open_load H. unfold orch. rewrite Hpc, Hk, Hcfg. simpl.
  destruct (Z.ltb_spec (Z.of_nat 0) (Concurrency c)); [|lia]. close_load.
Qed.

Lemma load_take (c : Bconfig) (p : opc) (k : Z) (coin t0 t1 : Z)
    (lq : list Z) (n : Z) (s : state) :
  load_at c p [k] idle lq n s →
  ∃ s', step s (ATake 0 coin t0 t1) = Some s' ∧
        load_at c p [] (mkW (WRecvSeq k) None) lq n s'.
Proof.
  intros H. open_load H. unfold worker_take. rewrite Hws, Hk, Hcfg. simpl.
  rewrite Float64_below_one. unfold set_worker. close_load.
Qed.

Lemma load_rendezvous (c : Bconfig) (i k : Z) (ks lq : list Z) (n : Z) (s : state) :
  load_at c (OSendSeq i) ks (mkW (WRecvSeq k) None) lq n s →
  ∃ s' q, step s (ARendezvous 0) = Some s' ∧
          load_at c (OLoop (add64 i 1)) ks (mkW (WGotSeq k q) None) lq n s'.
Proof.
  intros H. open_load H. unfold rendezvous. rewrite Hpc, Hws. simpl.
  unfold set_worker, bump. rewrite Hph.
  eexists _, _. split; [reflexivity|]. unfold load_at. simpl.
  rewrite Hws. simpl. repeat split; eauto.
Qed.

Lemma load_enter (c : Bconfig) (p : opc) (k q : Z) (ks lq : list Z) (n : Z)
    (s : state) :
  load_at c p ks (mkW (WGotSeq k q) None) lq n s →
  ∃ s', step s (AEnter 0) = Some s' ∧
        load_at c p ks (mkW (WCalling k q) None) lq n s'.
Proof.
  intros H. open_load H. unfold enter_write. rewrite Hws. simpl.
  unfold set_worker. close_load.
Qed.

Lemma load_write_ret (c : Bconfig) (p : opc) (k q t0 t1 : Z) (ks lq : list Z)
    (n : Z) (s : state) :
  load_at c p ks (mkW (WCalling k q) None) lq n s →
  ∃ s', step s (AWriteRet 0 None t0 t1) = Some s' ∧
        load_at c p ks (mkW (WSend (t1 - t0)) None) lq n s'.
Proof.
  intros H. open_load H. unfold write_ret. rewrite Hws. simpl.
  unfold finish, set_worker. close_load.
Qed.

Lemma load_send_latency (c : Bconfig) (p : opc) (d : Z) (ks : list Z) (n : Z)
    (s : state) :
  load_at c p ks (mkW (WSend d) None) [] n s →
  ∃ s', step s (ASend 0) = Some s' ∧ load_at c p ks idle [d] n s'.
Proof.
  intros H. open_load H. unfold send_latency. rewrite Hws, Hlc, Hl. simpl.
  unfold set_worker. close_load.
Qed.

Lemma load_collect (c : Bconfig) (p : opc) (d : Z) (ks : list Z) (x : wstate)
    (s : state) :
  load_at c p ks x [d] 1 s →
  ∃ s', step s ACollect = Some s' ∧ load_at c p ks x [] 0 s'.
Proof.
  intros H. open_load H. unfold collect. rewrite Hl, Hw. simpl. close_load.
Qed.

Lemma load_round (c : Bconfig) (i : Z) (s : state) :
  1 ≤ Concurrency c → i < add64 (Min c) (K c) → load_head c i s →
  ∃ s', exec s (round 0 None ++ deliver 0) = Some s' ∧ load_head c (add64 i 1) s'.
Proof.
  intros Hcon Hi H0. unfold load_head in *.
  destruct (load_add c i false 0 0%nat s Hi H0) as (s1 & E1 & H1).
  destruct (load_send_key c i i false 0 0%nat _ _ s1 Hcon H1) as (s2 & E2 & H2).
  destruct (load_take c _ i 0 0 0 _ _ s2 H2) as (s3 & E3 & H3).
  destruct (load_rendezvous c i i _ _ _ s3 H3) as (s4 & q & E4 & H4).
  destruct (load_enter c _ i q _ _ _ s4 H4) as (s4' & E4' & H4').
  destruct (load_write_ret c _ i q 5 9 _ _ _ s4' H4') as (s5 & E5 & H5).
  destruct (load_send_latency c _ _ _ _ s5 H5) as (s6 & E6 & H6).
  destruct (load_collect c _ _ _ _ s6 H6) as (s7 & E7 & H7).
  exists s7. split; [|exact H7].
  unfold round, deliver. simpl app.
  repeat (eapply exec_cons; [eassumption|]). reflexivity.
Qed.

Lemma load_rounds_run (c : Bconfig) (n : nat) (i : Z) (s : state) :
  1 ≤ Concurrency c → ((0 < n)%nat → i + Z.of_nat n ≤ add64 (Min c) (K c)) →
  in_int64 i → load_head c i s →
  ∃ s', exec s (load_rounds n) = Some s' ∧ load_head c (i + Z.of_nat n) s'.
Proof.
  intros Hcon. revert i s. induction n as [|n IH]; intros i s Hn Hi Hh.
  - exists s. replace (i + Z.of_nat 0) with i by lia. done.
  - pose proof (wrap64_range (Min c + K c)) as Hw. fold (add64 (Min c) (K c)) in Hw.
    destruct (load_round c i s) as (s1 & E1 & H1); [done | lia | done |].
    rewrite add64_id in H1 by (unfold in_int64, min_int64, max_int64 in *; lia).
    destruct (IH (i + 1) s1) as (s2 & E2 & H2);
      [lia | unfold in_int64, min_int64, max_int64 in *; lia | done |].
    exists s2. split.
    + change (load_rounds (S n))
        with ((round 0 None ++ deliver 0) ++ load_rounds n).
      rewrite exec_app, E1. exact E2.
    + replace (i + Z.of_nat (S n)) with (i + 1 + Z.of_nat n) by lia. done.
Qed.

Lemma load_wind_up (c : Bconfig) (i : Z) (s : state) :
  add64 (Min c) (K c) ≤ i → load_head c i s →
  ∃ s', exec s wind_up = Some s' ∧ pc s' = ODone ∧ crashed s' = None.
Proof.
  intros Hi H. unfold load_head in H.
  destruct H as (Hc & Hph & Hcfg & Hpc & Hk & Hl & Hlc & Hw & ws & Hws).
  apply Z.ltb_ge in Hi.
  assert (E1 : step s (AOrch false 0 0) = Some (set_pc OStop s)).
  { unfold step, orch. by rewrite Hc, Hpc, Hph, Hcfg; simpl; rewrite Hi. }
  assert (E2 : step (set_pc OStop s) (AOrch false 0 0)
               = Some (set_pc OWait (set_keys_closed true (set_pc OStop s)))).
  { unfold step, orch. simpl. by rewrite Hc, Hph. }
  assert (E3 : step (set_pc OWait (set_keys_closed true (set_pc OStop s)))
                 (AOrch false 0 0)
               = Some (set_pc OReport
                         (set_pc OWait (set_keys_closed true (set_pc OStop s))))).
  { unfold step, orch. simpl. by rewrite Hc, Hph, Hw. }
  eexists. split.
  - unfold wind_up.
    eapply exec_cons; [exact E1|]. eapply exec_cons; [exact E2|].
    eapply exec_cons; [exact E3|]. eapply exec_cons; [|reflexivity].
    unfold step, orch. simpl. rewrite Hc. reflexivity.
  - simpl. done.
Qed.

Lemma start_load_head (c : Bconfig) (cnt g : Z) (lat : list Z) :
  1 ≤ Concurrency c → load_head c (Min c) (start LoadPhase c cnt g lat).
Proof.
  intros Hcon. unfold load_head, load_at, start. simpl.
  destruct (Z.ltb_spec (Concurrency c) 0); [lia|].
  repeat split; try done.
  destruct (Z.to_nat (Concurrency c)) as [|n] eqn:E; [lia|].
  simpl. eauto.
Qed.

(** With at least one worker and a [db.Write] that returns, [Load] can
    run to its end. *)
Lemma load_completes (c : Bconfig) (cnt g : Z) (lat : list Z) :
  in_int64 (Min c) → 1 ≤ Concurrency c →
  ∃ sched s, exec (start LoadPhase c cnt g lat) sched = Some s ∧
             pc s = ODone ∧ crashed s = None.
Proof.
  intros Hm Hcon.
  pose proof (start_load_head c cnt g lat Hcon) as H0.
  set (n := Z.to_nat (add64 (Min c) (K c) - Min c)).
  destruct (load_rounds_run c n (Min c) (start LoadPhase c cnt g lat))
    as (s1 & E1 & H1); [done | lia | done | done |].
  destruct (load_wind_up c (Min c + Z.of_nat n) s1) as (s2 & E2 & Hpc & Hc);
    [lia | done |].
  exists (load_rounds n ++ wind_up), s2. rewrite exec_app, E1. done.
Qed.

(** C8: [Load] sets the write ratio to 1 and the throttle to 0, so every
    key a worker takes is written; the keys it submits are [Min],
    [Min + 1], ... in this order, all below [b.Min+b.K] (which is
    [Min + K] unless the sum overflows); the workers take the keys for
    their calls of [db.Write] in the order of the submissions, and once
    the loop is over they have taken each key of the interval exactly
    once; with at least one worker and writes that return, the load runs
    to its end. *)
Theorem load_writes_each_key_once (c : Bconfig) (cnt g : Z) (lat : list Z)
    (s : state) :
  in_int64 (Min c) → reachable (start LoadPhase c cnt g lat) s →
  W (cfg s) = 1%Q ∧ Throttle (cfg s) = 0 ∧ paced (cfg s) = false ∧
  (∀ coin, coin_below coin (W (cfg s)) = true) ∧
  (submitted s).*1 = seqZ (Min c) (Z.of_nat (length (submitted s))) ∧
  (∀ k, k ∈ (submitted s).*1 → Min c ≤ k < add64 (Min c) (K c)) ∧
  (in_int64 (Min c + K c) → add64 (Min c) (K c) = Min c + K c) ∧
  dispatched s = take (length (dispatched s)) (submitted s) ∧
  (1 ≤ Concurrency c →
   ∃ sched s', exec (start LoadPhase c cnt g lat) sched = Some s' ∧
               pc s' = ODone ∧ crashed s' = None) ∧
  (past_loop (pc s) = true →
   (dispatched s).*1 = seqZ (Min c) (add64 (Min c) (K c) - Min c)).
Proof.
  intros Hm Hr.
  pose proof (reachable_load_progress c cnt g lat s Hm Hr) as Hl.
  assert (Hp : paired s) by (eapply reachable_paired; [apply start_paired | exact Hr]).
  destruct (load_progress_keys c s Hl) as [Hk Hb].
  destruct Hl as (Hph & Hcfg & Hl). rewrite Hcfg. simpl.
  split; [done|]. split; [done|]. split; [done|].
  split; [apply Float64_below_one|]. split; [done|]. split; [done|].
  split; [apply add64_id|]. split; [by apply dispatched_prefix|].
  split; [by apply load_completes|].
  intros Hpast. destruct Hp as [_ Hp].
  destruct (pc s); try discriminate; simpl in Hp; destruct Hp as [<- _]; done.
Qed.

Lemma load_writes_each_key_once_witness :
  (dispatched (run_to (fresh LoadPhase load_cfg) load_sched)).*1 = seqZ 0 2.
Proof.
  refine (proj2 (proj2 (proj2 (proj2 (proj2 (proj2 (proj2 (proj2 (proj2
    (load_writes_each_key_once load_cfg (-1) (-1) []
       (run_to (fresh LoadPhase load_cfg) load_sched) _ _))))))))) eq_refl).
  - unfold in_int64, min_int64, max_int64. simpl. lia.
  - exists load_sched. vm_compute. reflexivity.
Defined.

(** * Further properties of the code *)

(** ** The conflict branch at its extremes *)

(** X1: under the conflict distribution a percentage of 100 or more makes
    every key the hot key [0] and leaves the counter alone (whatever [K]
    is, even zero); a percentage of 0 or less makes [next] behave as
    under the order distribution. *)
Theorem conflict_extremes (c : Bconfig) (counter draw : Z) (fuel : nat) :
  Distribution c = "conflict" →
  (100 ≤ Conflicts c → next c counter draw fuel = Ret (0, counter)) ∧
  (Conflicts c ≤ 0 →
   next c counter draw fuel
   = next (set_Distribution "order" c) counter draw fuel).
Proof.
  intros Hd. rewrite next_conflict by done.
  pose proof (Z.mod_pos_bound draw 100) as Hb.
  split; intros Hc.
  - destruct (Z.ltb_spec (draw mod 100) (Conflicts c)); [done | lia].
  - destruct (Z.ltb_spec (draw mod 100) (Conflicts c)); [lia|].
    rewrite next_order by done. reflexivity.
Qed.

Lemma conflict_extremes_witness :
  next (set_K 0 (set_Distribution "conflict" DefaultBConfig)) (-1) 42 0
  = Ret (0, -1).
Proof.
  refine (proj1 (conflict_extremes
            (set_K 0 (set_Distribution "conflict" DefaultBConfig)) (-1) 42 0
            eq_refl) _).
  simpl. lia.
Defined.

(** ** What the folding of the normal branch keeps *)

Lemma fold_up_shift (fuel : nat) (key k r : Z) :
  1 ≤ k ≤ max_int64 → min_int64 ≤ key →
  fold_up fuel key k = Some r → ∃ n, 0 ≤ n ∧ r = key + n * k.
Proof.
  intros Hk. revert key. induction fuel as [|f IH]; intros key Hlo; cbn [fold_up].
  - destruct (Z.ltb_spec key 0); [discriminate|]. intros [= <-]. exists 0. lia.
  - destruct (Z.ltb_spec key 0); [| intros [= <-]; exists 0; lia].
    rewrite add64_id by (unfold in_int64, min_int64, max_int64 in *; lia).
    intros Hr. apply IH in Hr as (n & Hn & ->); [|lia]. exists (n + 1). lia.
Qed.

Lemma fold_down_shift (fuel : nat) (key k r : Z) :
  1 ≤ k → 0 ≤ key ≤ max_int64 →
  fold_down fuel key k = Some r → ∃ n, 0 ≤ n ∧ r = key - n * k ∧ (0 < key → 0 < r).
Proof.
  intros Hk. revert key. induction fuel as [|f IH]; intros key Hkey; cbn [fold_down].
  - destruct (Z.ltb_spec k key); [discriminate|]. intros [= <-]. exists 0. lia.
  - destruct (Z.ltb_spec k key); [| intros [= <-]; exists 0; lia].
    rewrite wrap64_id by (unfold in_int64, min_int64, max_int64 in *; lia).
    intros Hr. apply IH in Hr as (n & Hn & -> & Hpos); [|lia].
    exists (n + 1). split; [lia|]. split; [lia|]. intros _. apply Hpos. lia.
Qed.

(** X2: the folding of the normal branch is not a modulo: with [K >= 1]
    the key differs from the draw by a multiple of [K], a draw already in
    [[0, K]] is returned as it is (so the key [K] itself is produced), and
    a positive draw never folds to [0] (a positive multiple of [K] folds
    to [K]). *)
Theorem normal_fold_keeps_residue (c : Bconfig) (counter draw : Z) (fuel : nat)
    (key cnt' : Z) :
  Distribution c = "normal" → 1 ≤ K c → in_int64 (K c) →
  next c counter draw fuel = Ret (key, cnt') →
  cnt' = counter ∧
  (∃ n, key = wrap64 draw + n * K c) ∧
  (0 ≤ wrap64 draw ≤ K c → key = wrap64 draw) ∧
  (0 < wrap64 draw → 0 < key).
Proof.
  intros Hd Hk Hi. rewrite next_normal by done.
  pose proof (wrap64_range draw) as Hw. unfold in_int64 in Hw, Hi.
  destruct (fold_up fuel (wrap64 draw) (K c)) as [k1|] eqn:E1; [|discriminate].
  destruct (fold_down fuel k1 (K c)) as [k2|] eqn:E2; [|discriminate].
  intros [= <- <-].
  destruct (fold_up_range fuel (wrap64 draw) (K c) k1) as (H0 & Hn & Hp);
    [lia | lia | done |].
  destruct (fold_up_shift fuel (wrap64 draw) (K c) k1) as (n1 & Hn1 & E1');
    [lia | lia | done |].
  assert (Hk1 : 0 ≤ k1 ≤ max_int64).
  { destruct (Z.lt_ge_cases (wrap64 draw) 0) as [Hneg|Hpos].
    - specialize (Hn Hneg). lia.
    - specialize (Hp Hpos). lia. }
  destruct (fold_down_shift fuel k1 (K c) k2) as (n2 & Hn2 & E2' & Hpos2);
    [lia | done | done |].
  split; [done|]. split; [|split].
  - exists (n1 - n2). lia.
  - intros Hin. rewrite (Hp (proj1 Hin)) in E2.
    destruct fuel; cbn [fold_down] in E2;
      destruct (Z.ltb_spec (K c) (wrap64 draw)); try lia; congruence.
  - intros Hpos. apply Hpos2. rewrite (Hp (Z.lt_le_incl _ _ Hpos)). done.
Qed.

Lemma normal_fold_keeps_residue_witness :
  (∃ n, 1000 = wrap64 3000 + n * K (set_Distribution "normal" DefaultBConfig)) ∧
  (0 ≤ wrap64 3000 ≤ K (set_Distribution "normal" DefaultBConfig) →
   1000 = wrap64 3000) ∧
  (0 < wrap64 3000 → 0 < 1000).
Proof.
  refine (proj2 (normal_fold_keeps_residue
            (set_Distribution "normal" DefaultBConfig) (-1) 3000 5 1000 (-1)
            eq_refl _ _ eq_refl)).
  - simpl. lia.
  - unfold in_int64, min_int64, max_int64. simpl. lia.
Defined.

(** ** Panics that cannot happen *)

Lemma next_panic_message (c : Bconfig) (counter draw : Z) (fuel : nat) (m : string) :
  next c counter draw fuel = Panic m ∨ next c counter draw fuel = Fatal m →
  m ≠ closed_send_panic ∧ m ≠ negative_wait_panic.
Proof.
  unfold next, advance, Intn, closed_send_panic, negative_wait_panic.
  intros [H | H]; repeat case_match; simplify_eq; split; discriminate.
Qed.

(** A crash is the effect of the last step of a schedule. *)
Lemma crash_is_last (sched : list action) (s0 s : state) (m : string) :
  crashed s0 = None → exec s0 sched = Some s → crashed s = Some m →
  ∃ s1 a, reachable s0 s1 ∧ crashed s1 = None ∧ step s1 a = Some s.
Proof.
  revert s0. induction sched as [|a sched IH]; intros s0 H0; simpl.
  - intros [= <-] Hc. congruence.
  - destruct (step s0 a) as [s1|] eqn:E; [|discriminate]. intros Hex Hc.
    destruct (crashed s1) as [m1|] eqn:Hc1.
    + destruct sched as [|b sched]; simpl in Hex.
      * injection Hex as <-. exists s0, a. split; [apply reachable_refl | done].
      * unfold step in Hex. rewrite Hc1 in Hex. discriminate.
    + destruct (IH s1 Hc1 Hex Hc) as (s2 & b & Hr & Hc2 & Hs).
      exists s2, b. split; [|done].
      destruct Hr as [l Hl]. exists (a :: l). simpl. by rewrite E.
Qed.

(** How a step can crash. *)
Lemma crash_step (s s' : state) (a : action) (m : string) :
  step s a = Some s' → crashed s' = Some m →
  (m ≠ closed_send_panic ∧ m ≠ negative_wait_panic) ∨
  (m = closed_send_panic ∧ latencies_closed s = true ∧
   ∃ w x, workers s !! w = Some x ∧ sending x = 1%nat) ∨
  (m = negative_wait_panic ∧ latencies s ≠ [] ∧ wait s < 1).
Proof.
  intros H Hc. step_cases H; simpl in Hc; try congruence.
  all: try (left; injection Hc as <-; eapply next_panic_message; eauto; fail).
  - right. left. injection Hc as <-. split; [done|]. split; [done|]. eauto.
  - right. right. injection Hc as <-. split; [done|].
    split; [congruence|].
    match goal with E : (_ <? 0) = true |- _ => apply Z.ltb_lt in E; lia end.
Qed.

Lemma busy_lookup (ws : list wstate) (w : nat) (x : wstate) :
  ws !! w = Some x → (sending x ≤ busy ws)%nat.
Proof.
  revert w. induction ws as [|z ws IH]; intros [|w]; simpl; try done.
  - intros [= ->]. unfold sending, holding. destruct (w_pc x); lia.
  - intros Hw. specialize (IH w Hw). lia.
Qed.

Lemma closed_at_end_step (s s' : state) (a : action) :
  closed_at_end s → step s a = Some s' → closed_at_end s'.
Proof.
  intros Hcl H. step_cases H; destruct Hcl as [Hlc Hrep];
    unfold closed_at_end; simpl; try (split; [exact Hlc | exact Hrep]).
  all: split; intros Hx; try done.
  all: try (specialize (Hlc Hx); congruence).
  all: try (specialize (Hrep Hx); congruence).
Qed.

Lemma reachable_closed_at_end (p : phase) (c : Bconfig) (cnt g : Z)
    (lat : list Z) (s : state) :
  reachable (start p c cnt g lat) s → closed_at_end s.
Proof.
  intros Hr.
  apply (reachable_invariant closed_at_end (start p c cnt g lat) s); [| |exact Hr].
  - unfold closed_at_end, start. simpl. split; [discriminate | done].
  - intros s1 a s2 H1 Hs. eapply closed_at_end_step; eauto.
Qed.

(** X3: whatever the phase and the schedule, [b.wait.Done()] never drives
    the counter of the barrier below zero: the process does not die of a
    negative WaitGroup counter. *)
Theorem barrier_never_negative (p : phase) (c : Bconfig) (cnt g : Z)
    (lat : list Z) (s : state) :
  reachable (start p c cnt g lat) s →
  crashed s ≠ Some negative_wait_panic ∧ (crashed s = None → 0 ≤ wait s).
Proof.
  intros Hr. split.
  - intros Hc.
    destruct (Z.ltb_spec (Concurrency c) 0) as [Hneg|Hpos].
    { assert (Hc0 : crashed (start p c cnt g lat)
                    = Some "makechan: size out of range").
      { unfold start. simpl. destruct (Z.ltb_spec (Concurrency c) 0); [done | lia]. }
      destruct Hr as [[|a l] Hl]; simpl in Hl.
      - injection Hl as <-. rewrite Hc0 in Hc. discriminate.
      - unfold step in Hl. rewrite Hc0 in Hl. discriminate. }
    assert (Hc0 : crashed (start p c cnt g lat) = None).
    { unfold start. simpl. destruct (Z.ltb_spec (Concurrency c) 0); [lia | done]. }
    destruct Hr as [sched Hex].
    destruct (crash_is_last sched _ s _ Hc0 Hex Hc) as (s1 & a & Hr1 & Hc1 & Hs).
    destruct (reachable_barrier p c cnt g lat s1 Hr1 Hc1) as (Ha & _ & _).
    destruct (crash_step s1 s a _ Hs Hc) as [[_ Hne] | [[He _] | (_ & Hl & Hw)]].
    + done.
    + discriminate.
    + unfold accounted in Ha. destruct (latencies s1); [done|]. simpl in Ha. lia.
  - intros Hc. destruct (reachable_barrier p c cnt g lat s Hr Hc) as (Ha & _ & _).
    unfold accounted in Ha. lia.
Qed.

Lemma barrier_never_negative_witness :
  crashed (run_to (fresh RunPhase count_cfg) count_sched)
  ≠ Some negative_wait_panic ∧
  (crashed (run_to (fresh RunPhase count_cfg) count_sched) = None →
   0 ≤ wait (run_to (fresh RunPhase count_cfg) count_sched)).
Proof.
  apply (barrier_never_negative RunPhase count_cfg (-1) (-1) []).
  exists count_sched. vm_compute. reflexivity.
Defined.

(** X4: [Load] and the count-based [Run] close the channel [latencies]
    only after the barrier has come down, when no worker has a latency
    left to send: no worker of theirs ever sends on the closed channel. *)
Theorem no_send_on_closed_behind_barrier (p : phase) (c : Bconfig) (cnt g : Z)
    (lat : list Z) (s : state) :
  waits_for_barrier (start p c cnt g lat) = true →
  reachable (start p c cnt g lat) s →
  crashed s ≠ Some closed_send_panic ∧
  (crashed s = None → latencies_closed s = true →
   wait s = 0 ∧ busy (workers s) = 0%nat ∧ latencies s = []).
Proof.
  intros Hwb Hr.
  assert (Hquiet : ∀ s1, reachable (start p c cnt g lat) s1 → crashed s1 = None →
            latencies_closed s1 = true →
            wait s1 = 0 ∧ busy (workers s1) = 0%nat ∧ latencies s1 = []).
  { intros s1 Hr1 Hc1 Hcl.
    destruct (reachable_barrier p c cnt g lat s1 Hr1 Hc1) as (Ha & _ & Hd).
    destruct (reachable_closed_at_end p c cnt g lat s1 Hr1) as [Hend _].
    destruct (reachable_ph _ _ Hr1) as [Hph Hcfg].
    assert (Hw1 : waits_for_barrier s1 = true).
    { unfold waits_for_barrier in *. by rewrite Hph, Hcfg. }
    destruct (Hd Hw1) as [Hpc _]. rewrite (Hend Hcl) in Hpc.
    unfold accounted in Ha.
    split; [done|]. split; [lia|]. destruct (latencies s1); [done|].
    simpl in Ha. lia. }
  split; [|by apply Hquiet].
  intros Hc.
  destruct (Z.ltb_spec (Concurrency c) 0) as [Hneg|Hpos].
  { assert (Hc0 : crashed (start p c cnt g lat)
                  = Some "makechan: size out of range").
    { unfold start. simpl. destruct (Z.ltb_spec (Concurrency c) 0); [done | lia]. }
    destruct Hr as [[|a l] Hl]; simpl in Hl.
    - injection Hl as <-. rewrite Hc0 in Hc. discriminate.
    - unfold step in Hl. rewrite Hc0 in Hl. discriminate. }
  assert (Hc0 : crashed (start p c cnt g lat) = None).
  { unfold start. simpl. destruct (Z.ltb_spec (Concurrency c) 0); [lia | done]. }
  destruct Hr as [sched Hex].
  destruct (crash_is_last sched _ s _ Hc0 Hex Hc) as (s1 & a & Hr1 & Hc1 & Hs).
  destruct (crash_step s1 s a _ Hs Hc)
    as [[Hne _] | [(_ & Hcl & w & x & Hw & Hx) | [He _]]].
  - done.
  - destruct (Hquiet s1 Hr1 Hc1 Hcl) as (_ & Hb & _).
    apply busy_lookup in Hw. lia.
  - discriminate.
Qed.

Lemma no_send_on_closed_behind_barrier_witness :
  crashed (run_to (fresh RunPhase count_cfg) count_sched)
  ≠ Some closed_send_panic ∧
  (crashed (run_to (fresh RunPhase count_cfg) count_sched) = None →
   latencies_closed (run_to (fresh RunPhase count_cfg) count_sched) = true →
   wait (run_to (fresh RunPhase count_cfg) count_sched) = 0 ∧
   busy (workers (run_to (fresh RunPhase count_cfg) count_sched)) = 0%nat ∧
   latencies (run_to (fresh RunPhase count_cfg) count_sched) = []).
Proof.
  apply (no_send_on_closed_behind_barrier RunPhase count_cfg (-1) (-1) []).
  - reflexivity.
  - exists count_sched. vm_compute. reflexivity.
Defined.

(** ** One key at a time *)

(** X5: whatever [Concurrency] is, at most one key is ever waiting, in
    the channel [keys] or in the hands of a worker that has not received
    its sequence number, and only while the orchestrator offers that
    number: the buffer of [keys] never holds a second key. *)
Theorem one_key_at_a_time (p : phase) (c : Bconfig) (cnt g : Z) (lat : list Z)
    (s : state) :
  reachable (start p c cnt g lat) s →
  (length (keys s) + length (recv_keys (workers s)) ≤ 1)%nat ∧
  (pending s ≠ [] → at_send_seq (pc s) = true).
Proof.
  intros Hr.
  assert (Hp : paired s) by (eapply reachable_paired; [apply start_paired | exact Hr]).
  destruct Hp as [_ Hp]. unfold pending in *.
  destruct (at_send_seq (pc s)).
  - destruct Hp as (k & _ & [E | E]); split; try done;
      apply (f_equal length) in E; rewrite length_app in E; simpl in E; lia.
  - destruct Hp as [_ E]. split; [|done].
    apply (f_equal length) in E. rewrite length_app in E. simpl in E. lia.
Qed.

Lemma one_key_at_a_time_witness :
  (length (keys (run_to (fresh RunPhase count_cfg) count_sched))
   + length (recv_keys (workers (run_to (fresh RunPhase count_cfg) count_sched)))
   ≤ 1)%nat ∧
  (pending (run_to (fresh RunPhase count_cfg) count_sched) ≠ [] →
   at_send_seq (pc (run_to (fresh RunPhase count_cfg) count_sched)) = true).
Proof.
  apply (one_key_at_a_time RunPhase count_cfg (-1) (-1) []).
  exists count_sched. vm_compute. reflexivity.
Defined.

(** ** A read no-op stalls the run *)

Lemma recv_keys_nil_lookup (ws : list wstate) (w : nat) (x : wstate) :
  recv_keys ws = [] → ws !! w = Some x →
  recv_key x = [] ∧ ∀ y, recv_keys (<[w := y]> ws) = recv_key y.
Proof.
  intros Hn Hw. destruct (recv_keys_insert ws w x Hw) as (l1 & l2 & E & Hy).
  rewrite Hn in E. symmetry in E.
  apply app_nil in E as [-> E]. apply app_nil in E as [E ->].
  split; [done|]. intros y. rewrite Hy. simpl. by rewrite app_nil_r.
Qed.

Lemma stalled_step (s s' : state) (a : action) :
  stalled s → step s a = Some s' →
  stalled s' ∧ pc s' = pc s ∧ submitted s' = submitted s ∧
  dispatched s' = dispatched s.
Proof.
  intros [Hpc Hpend] H. unfold stalled, pending in *.
  apply app_nil in Hpend as [Hk Hrk].
  step_cases H; simpl in *.
  all: try match goal with E : pc _ = _ |- _ => rewrite E in *; simpl in * end.
  all: try discriminate.
  all: try match goal with
       | Hw : workers _ !! _ = Some _ |- _ =>
           destruct (recv_keys_nil_lookup _ _ _ Hrk Hw) as [Hx Hy];
           unfold recv_key in Hx; simpl in Hx; rewrite ?Hy
       end.
  all: try discriminate.
  all: try congruence.
  all: unfold recv_key; simpl; rewrite ?Hk, ?Hrk; try done.
  all: match goal with E : keys _ = [] |- _ => rewrite E end; done.
Qed.

Lemma stalled_exec (sched : list action) (s s' : state) :
  stalled s → exec s sched = Some s' →
  stalled s' ∧ pc s' = pc s ∧ submitted s' = submitted s ∧
  dispatched s' = dispatched s.
Proof.
  revert s. induction sched as [|a sched IH]; intros s Hst; simpl.
  - intros [= <-]. done.
  - destruct (step s a) as [s1|] eqn:E; [|discriminate]. intros E'.
    destruct (stalled_step _ _ _ Hst E) as (Hst1 & Hpc1 & Hs1 & Hd1).
    destruct (IH s1 Hst1 E') as (Hst2 & Hpc2 & Hs2 & Hd2).
    split; [done|]. split; [congruence|]. split; congruence.
Qed.

(** X6: a key that a worker takes as a read no-op stalls the phase for
    good: the orchestrator is blocked in [globalCouner <- b.globalCouner],
    which only a write receives, so nothing more is submitted, no further
    key meets a sequence number (the only calls of [db.Write] still to be
    entered are those whose numbers were received before) and the
    statistics are never computed. *)
Theorem read_stalls_the_run (p : phase) (c : Bconfig) (cnt g : Z) (lat : list Z)
    (s s' : state) (w : nat) (coin t0 t1 : Z) :
  reachable (start p c cnt g lat) s →
  keys s ≠ [] → coin_below coin (W (cfg s)) = false →
  step s (ATake w coin t0 t1) = Some s' →
  ∀ sched s'', exec s' sched = Some s'' →
    at_send_seq (pc s'') = true ∧ pc s'' = pc s ∧
    submitted s'' = submitted s ∧ dispatched s'' = dispatched s ∧
    report s'' = None ∧
    called s'' ⊆+ dispatched s.
Proof.
  intros Hr Hk Hcoin Hs.
  assert (Hp : paired s) by (eapply reachable_paired; [apply start_paired | exact Hr]).
  assert (Hst : stalled s' ∧ pc s' = pc s ∧ submitted s' = submitted s ∧
                dispatched s' = dispatched s).
  { destruct Hp as [_ Hp]. unfold stalled, pending in *.
    destruct (at_send_seq (pc s)) eqn:Hat.
    - destruct Hp as (k & _ & [E | E]).
      + apply app_singleton in E as [[E1 E2] | [E1 E2]]; [congruence|].
        unfold step in Hs. destruct (crashed s); [discriminate|].
        unfold worker_take in Hs.
        destruct (workers s !! w) as [[[] err]|] eqn:Hw; try discriminate.
        rewrite E1, Hcoin in Hs. injection Hs as <-.
        destruct (recv_keys_nil_lookup _ _ _ E2 Hw) as [_ Hy].
        unfold finish. destruct err; simpl; rewrite Hy, Hat; done.
      + apply app_nil in E as [E _]. congruence.
    - destruct Hp as [_ E]. apply app_nil in E as [E _]. congruence. }
  destruct Hst as (Hst & Hpc & Hsub & Hdis).
  intros sched s'' Hex.
  destruct (stalled_exec sched s' s'' Hst Hex) as ([Hat _] & Hpc' & Hs' & Hd').
  split; [done|]. split; [congruence|]. split; [congruence|]. split; [congruence|].
  assert (Hr'' : reachable (start p c cnt g lat) s'').
  { eapply reachable_exec; [|exact Hex].
    eapply (reachable_exec _ s s' [ATake w coin t0 t1]); [exact Hr|].
    simpl. by rewrite Hs. }
  split.
  - destruct (reachable_closed_at_end p c cnt g lat s'' Hr'') as [_ Hrep].
    destruct (report s'') eqn:Hrp; [|done].
    assert (Hdone : pc s'' = ODone) by (apply Hrep; done).
    rewrite Hdone in Hat. discriminate.
  - rewrite <- Hdis, <- Hd'. by eapply calls_are_received.
Qed.

Lemma read_stalls_the_run_witness :
  at_send_seq (pc (run_to (fresh RunPhase half_cfg)
                     (second_key_sched ++ [ATake 0 high_coin 7 7; ASend 0])))
  = true ∧
  pc (run_to (fresh RunPhase half_cfg)
        (second_key_sched ++ [ATake 0 high_coin 7 7; ASend 0])) = OSendSeq 0 ∧
  submitted (run_to (fresh RunPhase half_cfg)
               (second_key_sched ++ [ATake 0 high_coin 7 7; ASend 0])) = [(0, 0)] ∧
  dispatched (run_to (fresh RunPhase half_cfg)
                (second_key_sched ++ [ATake 0 high_coin 7 7; ASend 0])) = [] ∧
  report (run_to (fresh RunPhase half_cfg)
            (second_key_sched ++ [ATake 0 high_coin 7 7; ASend 0])) = None ∧
  called (run_to (fresh RunPhase half_cfg)
            (second_key_sched ++ [ATake 0 high_coin 7 7; ASend 0])) ⊆+ [].
Proof.
  refine (read_stalls_the_run RunPhase half_cfg (-1) (-1) []
           (run_to (fresh RunPhase half_cfg) second_key_sched)
           (run_to (fresh RunPhase half_cfg)
              (second_key_sched ++ [ATake 0 high_coin 7 7]))
           0%nat high_coin 7 7 _ _ _ _ [ASend 0%nat] _ _).
  - exists second_key_sched. vm_compute. reflexivity.
  - vm_compute. discriminate.
  - vm_compute. reflexivity.
  - vm_compute. reflexivity.
  - vm_compute. reflexivity.
Defined.

(** ** Operations, errors and latencies *)

Lemma senders_insert (ws : list wstate) (w : nat) (x y : wstate) :
  ws !! w = Some x →
  (senders (<[w := y]> ws) + sending x = senders ws + sending y)%nat.
Proof.
  revert w. induction ws as [|z ws IH]; intros [|w]; simpl; try done.
  - intros [= ->]. lia.
  - intros Hw. specialize (IH w Hw). lia.
Qed.

Lemma senders_replicate_idle (n : nat) : senders (replicate n idle) = 0%nat.
Proof. induction n; simpl; done. Qed.

Lemma settled_step (n0 : nat) (s s' : state) (a : action) :
  settled n0 s → step s a = Some s' → settled n0 s'.
Proof.
  intros Hs H. unfold settled in *.
  step_cases H; simpl in *; try done.
  all: repeat match goal with
       | Hw : workers _ !! _ = Some ?x |- context [senders (<[_ := ?y]> _)] =>
           pose proof (senders_insert _ _ _ y Hw); clear Hw
       end.
  all: try match goal with E : latencies _ = _ |- _ => rewrite E in * end.
  all: unfold sending in *; rewrite ?length_app; simpl in *; lia.
Qed.

(** X7: every operation a worker has finalised has logged an error or
    produced exactly one latency, which the worker is about to send, which
    sits in the channel, or which the collector has appended to
    [b.latency]; nothing else ever enters [b.latency]. *)
Theorem every_operation_settles (p : phase) (c : Bconfig) (cnt g : Z)
    (lat : list Z) (s : state) :
  reachable (start p c cnt g lat) s →
  (length (latency (start p c cnt g lat)) + length (ops s)
   = length (errlog s) + senders (workers s) + length (latencies s)
     + length (latency s))%nat.
Proof.
  intros Hr.
  apply (reachable_invariant
           (settled (length (latency (start p c cnt g lat))))
           (start p c cnt g lat) s); [| |exact Hr].
  - unfold settled, start. simpl. rewrite senders_replicate_idle. lia.
  - intros s1 a s2 H1 Hs. eapply settled_step; eauto.
Qed.

Lemma every_operation_settles_witness :
  (0 + length (ops (run_to (fresh RunPhase fail_cfg) fail_sched))
   = length (errlog (run_to (fresh RunPhase fail_cfg) fail_sched))
     + senders (workers (run_to (fresh RunPhase fail_cfg) fail_sched))
     + length (latencies (run_to (fresh RunPhase fail_cfg) fail_sched))
     + length (latency (run_to (fresh RunPhase fail_cfg) fail_sched)))%nat.
Proof.
  apply (every_operation_settles RunPhase fail_cfg (-1) (-1) []).
  exists fail_sched. vm_compute. reflexivity.
Defined.

(** ** What [Load] leaves alone *)

Lemma load_keeps_counters_aux (c : Bconfig) (cnt g : Z) (lat : list Z)
    (s : state) :
  reachable (start LoadPhase c cnt g lat) s →
  counter s = cnt ∧ globalCouner s = g.
Proof.
  intros Hr.
  apply (reachable_invariant
           (λ s, ph s = LoadPhase ∧ counter s = cnt ∧ globalCouner s = g)
           (start LoadPhase c cnt g lat) s) in Hr; [tauto | done |].
  intros s1 a s2 (Hph & Hc & Hg) Hs.
  step_cases Hs; simpl; try done; try congruence.
  unfold next_seq. rewrite Hph. done.
Qed.

(** X8: [Load] consumes no sequence number and does not touch the order
    counter: in every state of a load [b.globalCouner] and [b.counter]
    are what they were when it started, so the [Run] that follows starts
    from them. *)
Theorem load_keeps_counters (c : Bconfig) (cnt g : Z) (lat : list Z) (s : state) :
  reachable (start LoadPhase c cnt g lat) s →
  counter s = cnt ∧ globalCouner s = g.
Proof.
  intros Hr.
  apply (reachable_invariant
           (λ s, ph s = LoadPhase ∧ counter s = cnt ∧ globalCouner s = g)
           (start LoadPhase c cnt g lat) s) in Hr; [tauto | done |].
  intros s1 a s2 (Hph & Hc & Hg) Hs.
  step_cases Hs; simpl; try done; try congruence.
  unfold next_seq. rewrite Hph. done.
Qed.

Lemma load_keeps_counters_witness :
  counter (run_to (fresh LoadPhase load_cfg) load_sched) = -1 ∧
  globalCouner (run_to (fresh LoadPhase load_cfg) load_sched) = -1.
Proof.
  apply (load_keeps_counters load_cfg (-1) (-1) []).
  exists load_sched. vm_compute. reflexivity.
Defined.

(** ** A phase without workers *)

Lemma idle_phase_step (l0 : list Z) (s s' : state) (a : action) :
  idle_phase l0 s → step s a = Some s' → idle_phase l0 s'.
Proof.
  intros Hi H.
  step_cases H; destruct Hi as (Hcon & Hw & Hk & Hl & Hs & Hd & Hr & Ho & Hlat);
    unfold idle_phase; simpl; try done.
  all: try match goal with E : workers _ !! _ = Some _ |- _ =>
         rewrite Hw in E; discriminate end.
  all: try match goal with E : latencies _ = _ :: _ |- _ =>
         rewrite Hl in E; discriminate end.
  all: match goal with E : (Z.of_nat (length (keys _)) <? _) = true |- _ =>
         rewrite Hk in E; apply Z.ltb_lt in E; simpl in E; lia end.
Qed.

(** X9: with [Concurrency] zero or negative there is no worker and the
    channel [keys] has no room: no key is ever submitted, [db.Write] is
    never called and nothing is appended to [b.latency], which stays what
    [Load] found, and stays empty in [Run], which has emptied it. *)
Theorem no_worker_no_submission (p : phase) (c : Bconfig) (cnt g : Z)
    (lat : list Z) (s : state) :
  Concurrency c ≤ 0 → reachable (start p c cnt g lat) s →
  submitted s = [] ∧ dispatched s = [] ∧ called s = [] ∧ returned s = [] ∧
  ops s = [] ∧
  latency s = match p with LoadPhase => lat | RunPhase => [] end.
Proof.
  intros Hcon Hr.
  apply (reachable_invariant
           (idle_phase (latency (start p c cnt g lat)))
           (start p c cnt g lat) s) in Hr.
  - unfold idle_phase in Hr. destruct p; simpl in Hr; tauto.
  - unfold idle_phase, start. simpl.
    replace (Z.to_nat (Concurrency c)) with 0%nat by lia.
    destruct p; simpl; repeat split; done.
  - intros s1 a s2 H1 Hs. eapply idle_phase_step; eauto.
Qed.

Lemma no_worker_no_submission_witness :
  submitted (run_to (start RunPhase (set_Concurrency_zero count_cfg) (-1) (-1) [7])
               [AOrch false 0 0]) = [] ∧
  dispatched (run_to (start RunPhase (set_Concurrency_zero count_cfg) (-1) (-1) [7])
                [AOrch false 0 0]) = [] ∧
  called (run_to (start RunPhase (set_Concurrency_zero count_cfg) (-1) (-1) [7])
            [AOrch false 0 0]) = [] ∧
  returned (run_to (start RunPhase (set_Concurrency_zero count_cfg) (-1) (-1) [7])
              [AOrch false 0 0]) = [] ∧
  ops (run_to (start RunPhase (set_Concurrency_zero count_cfg) (-1) (-1) [7])
         [AOrch false 0 0]) = [] ∧
  latency (run_to (start RunPhase (set_Concurrency_zero count_cfg) (-1) (-1) [7])
             [AOrch false 0 0]) = [].
Proof.
  apply (no_worker_no_submission RunPhase (set_Concurrency_zero count_cfg)
           (-1) (-1) [7]).
  - simpl. lia.
  - exists [AOrch false 0 0]. vm_compute. reflexivity.
Defined.

(** ** The count-based run *)

Lemma count_progress_step (c : Bconfig) (s s' : state) (a : action) :
  T c ≤ 0 → in_int64 (N c) → count_progress c s → step s a = Some s' →
  count_progress c s'.
Proof.
  intros HT HN Hcp H.
  step_cases H; destruct Hcp as (Hph & Hcfg & Hl);
    unfold count_progress; simpl; rewrite ?Hcfg in *.
  all: try match goal with E : pc _ = _ |- _ => rewrite E in *; simpl in * end.
  all: try (split; [done|]; split; [done|]).
  all: try done.
  all: try congruence.
  all: try match goal with E : (0 <? T _) = true |- _ => apply Z.ltb_lt in E; lia end.
  all: try match goal with E : (_ <? N _) = true |- _ => apply Z.ltb_lt in E end.
  all: try match goal with E : (_ <? N _) = false |- _ => apply Z.ltb_ge in E end.
  all: destruct_and?.
  all: try lia.
  - rewrite length_app. simpl. lia.
  - unfold bump. rewrite Hph, Hcfg.
    destruct (Z.ltb_spec 0 (T c)); [lia|].
    rewrite add64_id by (unfold in_int64, min_int64, max_int64 in *; lia).
    split; [lia|]. split; lia.
Qed.

Lemma count_run_submits_N_aux (c : Bconfig) (cnt g : Z) (lat : list Z)
    (s : state) :
  T c ≤ 0 → in_int64 (N c) → reachable (start RunPhase c cnt g lat) s →
  Z.of_nat (length (submitted s)) ≤ Z.max 0 (N c) ∧
  (past_loop (pc s) = true → Z.of_nat (length (submitted s)) = Z.max 0 (N c)).
Proof.
  intros HT HN Hr.
  apply (reachable_invariant (count_progress c) (start RunPhase c cnt g lat) s)
    in Hr.
  - destruct Hr as (_ & _ & Hl).
    destruct (pc s); simpl in *; destruct_and?;
      (split; [lia|]); intros Hpast; try discriminate; done.
  - unfold count_progress, start. simpl. repeat split; try done. by right.
  - intros s1 a s2 H1 Hs. eapply count_progress_step; eauto.
Qed.

(** X10: the count-based [Run] (T <= 0) never submits more than [N] keys,
    and when it has left its loop it has submitted exactly [N] keys (none
    for a negative [N]), each of which a worker has received with its
    sequence number for its call of [db.Write]. *)
Theorem count_run_submits_N (c : Bconfig) (cnt g : Z) (lat : list Z) (s : state) :
  T c ≤ 0 → in_int64 (N c) → reachable (start RunPhase c cnt g lat) s →
  Z.of_nat (length (submitted s)) ≤ Z.max 0 (N c) ∧
  (past_loop (pc s) = true →
   Z.of_nat (length (submitted s)) = Z.max 0 (N c) ∧
   dispatched s = submitted s).
Proof.
  intros HT HN Hr.
  assert (Hp : paired s) by (eapply reachable_paired; [apply start_paired | exact Hr]).
  apply (reachable_invariant (count_progress c) (start RunPhase c cnt g lat) s)
    in Hr.
  - destruct Hr as (_ & _ & Hl). destruct Hp as [_ Hp].
    destruct (pc s); simpl in *; destruct_and?;
      (split; [lia|]); intros Hpast; try discriminate; done.
  - unfold count_progress, start. simpl. repeat split; try done. by right.
  - intros s1 a s2 H1 Hs. eapply count_progress_step; eauto.
Qed.

Lemma count_run_submits_N_witness :
  Z.of_nat (length (submitted (run_to (fresh RunPhase count_cfg) count_sched)))
  = Z.max 0 (N count_cfg) ∧
  dispatched (run_to (fresh RunPhase count_cfg) count_sched)
  = submitted (run_to (fresh RunPhase count_cfg) count_sched).
Proof.
  refine (proj2 (count_run_submits_N count_cfg (-1) (-1) []
            (run_to (fresh RunPhase count_cfg) count_sched) _ _ _) eq_refl).
  - simpl. lia.
  - unfold in_int64, min_int64, max_int64. simpl. lia.
  - exists count_sched. vm_compute. reflexivity.
Defined.

(** ** An unknown distribution *)

Lemma next_unknown (c : Bconfig) (counter draw : Z) (fuel : nat) :
  known_distribution (Distribution c) = false →
  next c counter draw fuel = Fatal ("unknown distribution " +:+ Distribution c).
Proof.
  unfold known_distribution, next. intros H.
  repeat (apply orb_false_elim in H as [H ?]).
  repeat match goal with E : String.eqb _ _ = false |- _ => rewrite E; clear E end.
  reflexivity.
Qed.

Lemma keyless_step (c : Bconfig) (s s' : state) (a : action) :
  known_distribution (Distribution c) = false →
  keyless c s → step s a = Some s' → keyless c s'.
Proof.
  intros Hun Hk H.
  step_cases H; destruct Hk as (Hph & Hcfg & Hs & Hd & Hkeys & Hrk & Hak & Has);
    unfold keyless; simpl.
  all: try match goal with E : pc _ = _ |- _ => rewrite E in *; simpl in * end.
  all: try match goal with
       | Hw : workers _ !! _ = Some _ |- _ =>
           destruct (recv_keys_nil_lookup _ _ _ Hrk Hw) as [Hx Hy];
           unfold recv_key in Hx; simpl in Hx; rewrite ?Hy
       end.
  all: try done.
  all: try congruence.
  all: try match goal with
       | E : next _ _ _ _ = Ret _ |- _ =>
           rewrite Hcfg, next_unknown in E by done; discriminate
       end.
  all: try match goal with E : keys _ = _ :: _ |- _ =>
         rewrite Hkeys in E; discriminate end.
Qed.

(** X11: the distribution name is looked at only when [next] is called:
    with a name the switch of [next] has no case for (the spelling
    [zipfian] among them), every call of [next] is fatal, and [Run] dies
    before a single key is submitted, received by a worker or written. *)
Theorem unknown_distribution_submits_nothing (c : Bconfig) (cnt g : Z)
    (lat : list Z) (s : state) :
  known_distribution (Distribution c) = false →
  reachable (start RunPhase c cnt g lat) s →
  (∀ counter draw fuel,
     next c counter draw fuel
     = Fatal ("unknown distribution " +:+ Distribution c)) ∧
  submitted s = [] ∧ dispatched s = [] ∧
  (∀ draw fuel s', step s (AOrch false draw fuel) = Some s' →
     at_send_key (pc s') = 0%nat) ∧
  called s = [].
Proof.
  intros Hun Hr. split; [intros; by apply next_unknown|].
  pose proof (calls_are_received _ _ _ _ _ _ Hr) as Hcr.
  assert (Hk : keyless c s).
  { apply (reachable_invariant (keyless c) (start RunPhase c cnt g lat) s);
      [| | exact Hr].
    { unfold keyless, start. simpl. rewrite recv_keys_replicate_idle. done. }
    intros s1 a s2 H1 Hs. eapply keyless_step; eauto. }
  split; [apply Hk|]. split; [apply Hk|]. split.
  - intros draw fuel s' Hs. apply (keyless_step c s s' _ Hun Hk Hs).
  - destruct Hk as (_ & _ & _ & Hd & _). rewrite Hd in Hcr.
    by apply submseteq_nil_r.
Qed.

Lemma unknown_distribution_submits_nothing_witness :
  crashed (run_to (fresh RunPhase (set_Distribution "zipfian" count_cfg))
             [AOrch false 0 0])
  = Some "unknown distribution zipfian" ∧
  submitted (run_to (fresh RunPhase (set_Distribution "zipfian" count_cfg))
               [AOrch false 0 0]) = [] ∧
  dispatched (run_to (fresh RunPhase (set_Distribution "zipfian" count_cfg))
                [AOrch false 0 0]) = [] ∧
  called (run_to (fresh RunPhase (set_Distribution "zipfian" count_cfg))
            [AOrch false 0 0]) = [].
Proof.
  split; [vm_compute; reflexivity|].
  refine (let H := unknown_distribution_submits_nothing
                     (set_Distribution "zipfian" count_cfg) (-1) (-1) []
                     (run_to (fresh RunPhase (set_Distribution "zipfian" count_cfg))
                        [AOrch false 0 0]) eq_refl _ in
          conj (proj1 (proj2 H))
            (conj (proj1 (proj2 (proj2 H))) (proj2 (proj2 (proj2 (proj2 H)))))).
  exists [AOrch false 0 0]. vm_compute. reflexivity.
Defined.

(** ** A worker without an error *)

Lemma holds_no_error_step (w : nat) (s s' : state) (a : action) :
  (∀ e t0 t1, a ≠ AWriteRet w (Some e) t0 t1) →
  holds_no_error w s → step s a = Some s' → holds_no_error w s'.
Proof.
  intros Hne (x & Hx & He) H. unfold holds_no_error.
  step_cases H; simpl; eauto.
  all: match goal with
       | Hw : workers _ !! ?w0 = Some _ |- context [<[?w0 := ?y]> _] =>
           destruct (decide (w0 = w)) as [->|Hd];
           [ rewrite list_lookup_insert_eq by (by eapply lookup_lt_Some);
             rewrite Hx in Hw; injection Hw as ->; simpl in *; simplify_eq
           | rewrite list_lookup_insert_ne by done ]
       end; eauto.
  exfalso. by eapply Hne.
Qed.

Lemma holds_no_error_exec (w : nat) (sched : list action) (s s' : state) :
  no_failure_for w sched → holds_no_error w s → exec s sched = Some s' →
  holds_no_error w s'.
Proof.
  revert s. induction sched as [|a sched IH]; intros s Hn Hh; simpl.
  - intros [= <-]. done.
  - destruct (step s a) as [s1|] eqn:E; [|discriminate].
    apply Forall_cons in Hn as [Ha Hn]. intros E'.
    apply (IH s1); eauto using holds_no_error_step.
Qed.

Lemma start_holds_no_error (p : phase) (c : Bconfig) (cnt g : Z) (lat : list Z)
    (w : nat) :
  Z.of_nat w < Concurrency c → holds_no_error w (start p c cnt g lat).
Proof.
  intros Hw. exists idle. split; [|done]. unfold start. simpl.
  apply lookup_replicate_2. lia.
Qed.

(** X12: a worker none of whose writes has failed since the phase began
    handles a read no-op as a success: nothing is logged, the operation
    ends at the second reading of the clock and the worker goes on to
    send the latency between the two readings. *)
Theorem clean_worker_reads_succeed (p : phase) (c : Bconfig) (cnt g : Z)
    (lat : list Z) (s : state) (w : nat) (sched : list action)
    (coin r0 r1 : Z) :
  Z.of_nat w < Concurrency c →
  exec (start p c cnt g lat) sched = Some s → no_failure_for w sched →
  crashed s = None →
  (∃ x, workers s !! w = Some x ∧ w_pc x = WIdle) → keys s ≠ [] →
  coin_below coin (W (cfg s)) = false →
  ∃ s', step s (ATake w coin r0 r1) = Some s' ∧
        errlog s' = errlog s ∧
        ops s' = ops s ++ [mkOp r0 r1] ∧
        workers s' !! w = Some (mkW (WSend (r1 - r0)) None).
Proof.
  intros Hw Hex Hno Hc (x & Hx & Hidle) Hk Hcoin.
  destruct (holds_no_error_exec w sched _ s Hno
              (start_holds_no_error p c cnt g lat w Hw) Hex) as (x' & Hx' & He').
  rewrite Hx in Hx'. injection Hx' as <-.
  unfold step, worker_take. rewrite Hc, Hx.
  destruct x as [xpc xerr]. simpl in *. subst xpc xerr.
  destruct (keys s) as [|k rest]; [done|]. rewrite Hcoin.
  eexists. split; [reflexivity|]. simpl. repeat split.
  apply list_lookup_insert_eq. by eapply lookup_lt_Some.
Qed.

Lemma clean_worker_reads_succeed_witness :
  ∃ s', step (run_to (fresh RunPhase half_cfg) second_key_sched)
             (ATake 0 high_coin 7 8) = Some s' ∧
        errlog s' = [] ∧ ops s' = [] ++ [mkOp 7 8] ∧
        workers s' !! 0%nat = Some (mkW (WSend (8 - 7)) None).
Proof.
  apply (clean_worker_reads_succeed RunPhase half_cfg (-1) (-1) []
           (run_to (fresh RunPhase half_cfg) second_key_sched) 0%nat
           second_key_sched high_coin 7 8).
  - simpl. lia.
  - vm_compute. reflexivity.
  - repeat constructor; intros; discriminate.
  - vm_compute. reflexivity.
  - exists idle. split; vm_compute; reflexivity.
  - vm_compute. discriminate.
  - vm_compute. reflexivity.
Defined.

(** ** The keys of a run under the order distribution *)

Lemma advance_cycles (c : Bconfig) (counter : Z) :
  1 ≤ K c → in_int64 (K c) → in_int64 (Min c) → Min c + K c ≤ two63 →
  -1 ≤ counter < K c →
  advance c counter
  = Ret (Min c + (counter + 1) mod K c, (counter + 1) mod K c).
Proof.
  intros Hk Hki Hm Hov Hc.
  rewrite advance_returns by lia.
  rewrite (add64_id counter 1)
    by (unfold in_int64, min_int64, max_int64, two63 in *; lia).
  rewrite Z.rem_mod_nonneg by lia.
  pose proof (Z.mod_pos_bound (counter + 1) (K c)) as Hb.
  rewrite add64_id
    by (unfold in_int64, min_int64, max_int64, two63 in *; lia).
  f_equal. f_equal. lia.
Qed.

Lemma order_generate (c : Bconfig) (cnt counter draw : Z) (fuel : nat) (n : nat)
    (k c' : Z) :
  Distribution c = "order" →
  1 ≤ K c → in_int64 (K c) → in_int64 (Min c) → Min c + K c ≤ two63 →
  -1 ≤ cnt < K c →
  counter = (if Z.of_nat (n + 0) =? 0 then cnt
             else (cnt + Z.of_nat (n + 0)) mod K c) →
  next c counter draw fuel = Ret (k, c') →
  c' = (if Z.of_nat (n + 1) =? 0 then cnt
        else (cnt + Z.of_nat (n + 1)) mod K c) ∧
  k = Min c + (cnt + 1 + Z.of_nat n) mod K c.
Proof.
  intros Hd Hk Hki Hm Hov Hcnt Hc Hn.
  pose proof (Z.mod_pos_bound (cnt + Z.of_nat (n + 0)) (K c)) as Hb.
  assert (Hrange : -1 ≤ counter < K c).
  { rewrite Hc. destruct (Z.of_nat (n + 0) =? 0); lia. }
  rewrite next_order, advance_cycles in Hn by done.
  injection Hn as <- <-.
  assert (E : (counter + 1) mod K c = (cnt + 1 + Z.of_nat n) mod K c).
  { rewrite Hc. destruct (Z.eqb_spec (Z.of_nat (n + 0)) 0) as [Hz|Hz].
    - f_equal. lia.
    - rewrite Zplus_mod_idemp_l. f_equal. lia. }
  rewrite E. split; [|done].
  destruct (Z.eqb_spec (Z.of_nat (n + 1)) 0); [lia|]. f_equal. lia.
Qed.

Lemma order_run_step (c : Bconfig) (cnt : Z) (s s' : state) (a : action) :
  Distribution c = "order" →
  1 ≤ K c → in_int64 (K c) → in_int64 (Min c) → Min c + K c ≤ two63 →
  -1 ≤ cnt < K c →
  order_run c cnt s → step s a = Some s' → order_run c cnt s'.
Proof.
  intros Hd Hk Hki Hm Hov Hcnt Ho H.
  step_cases H; destruct Ho as (Hph & Hcfg & Hc & Hkey & Hsub);
    unfold order_run; simpl.
  all: try (split; [done|]; split; [done|];
            split; [exact Hc|]; split; [exact Hkey | exact Hsub]).
  all: try match goal with E : pc _ = _ |- _ => rewrite E in *; simpl in * end.
  all: try (split; [done|]; split; [done|]).
  all: try (split; [exact Hc|]; split; [intros; discriminate | exact Hsub]).
  all: try congruence.
  all: try match goal with
       | E : next _ _ _ _ = Ret _ |- _ =>
           rewrite Hcfg in E;
           destruct (order_generate c cnt _ _ _ _ _ _ Hd Hk Hki Hm Hov Hcnt Hc E)
             as [Hc' Hk'];
           split; [exact Hc'|]; split; [|exact Hsub];
           intros ? ? [= <- <-]; exact Hk'
       end.
  - split; [|split].
    + rewrite length_app. simpl.
      replace (length (submitted s) + 1 + 0)%nat
        with (length (submitted s) + 1)%nat by lia. exact Hc.
    + intros; discriminate.
    + intros j k0 q [Hl | [Hj Hl]]%lookup_app_Some.
      * eapply Hsub; eauto.
      * destruct (j - length (submitted s))%nat eqn:Hjd; simplify_eq/=.
        rewrite (Hkey i k0 eq_refl). do 2 f_equal. lia.
Qed.

(** X13: in a [Run] under the order distribution with [K >= 1] that
    starts with the counter at [cnt] ([-1] after [NewBenchmark]), the
    [j]-th key submitted is [Min + (cnt + 1 + j) mod K]: the run walks
    the key space in a cycle, whatever the workers do; and every call of
    [db.Write], in whatever order the calls are entered, is made with the
    key and the sequence number of one of these submissions. *)
Theorem order_run_cycles_keys (c : Bconfig) (cnt g : Z) (lat : list Z)
    (s : state) :
  Distribution c = "order" →
  1 ≤ K c → in_int64 (K c) → in_int64 (Min c) → Min c + K c ≤ two63 →
  -1 ≤ cnt < K c →
  reachable (start RunPhase c cnt g lat) s →
  (∀ j k q, submitted s !! j = Some (k, q) →
     k = Min c + (cnt + 1 + Z.of_nat j) mod K c) ∧
  (∀ k q, (k, q) ∈ called s →
     ∃ j, submitted s !! j = Some (k, q) ∧
          k = Min c + (cnt + 1 + Z.of_nat j) mod K c).
Proof.
  intros Hd Hk Hki Hm Hov Hcnt Hr.
  pose proof (calls_are_submitted _ _ _ _ _ _ Hr) as Hcs.
  assert (Ho : order_run c cnt s).
  { apply (reachable_invariant (order_run c cnt) (start RunPhase c cnt g lat) s);
      [| | exact Hr].
    - unfold order_run, start. simpl. repeat split; try done.
    - intros s1 a s2 H1 Hs. eapply order_run_step; eauto. }
  destruct Ho as (_ & _ & _ & _ & Hsub). split; [exact Hsub|].
  intros k q Hx.
  apply (elem_of_submseteq _ (submitted s)) in Hx; [|done].
  apply list_elem_of_lookup in Hx as [j Hj]. exists j. split; [done|].
  by apply (Hsub j k q).
Qed.

Lemma order_run_cycles_keys_witness :
  ∃ j, submitted (run_to (fresh RunPhase count_cfg) overtaking_sched) !! j
       = Some (2, 2) ∧
       2 = Min count_cfg + (-1 + 1 + Z.of_nat j) mod K count_cfg.
Proof.
  refine (proj2 (order_run_cycles_keys count_cfg (-1) (-1) []
            (run_to (fresh RunPhase count_cfg) overtaking_sched)
            eq_refl _ _ _ _ _ _) 2 2 _).
  7: { vm_compute. apply list_elem_of_further, list_elem_of_here. }
  - simpl. lia.
  - unfold in_int64, min_int64, max_int64. simpl. lia.
  - unfold in_int64, min_int64, max_int64. simpl. lia.
  - unfold two63. simpl. lia.
  - simpl. lia.
  - exists overtaking_sched. vm_compute. reflexivity.
Defined.

(** ** The calls made when the statistics are computed *)

Lemma busy_zero_got_pairs (ws : list wstate) :
  busy ws = 0%nat → got_pairs ws = [].
Proof.
  induction ws as [|[[] e] ws IH]; simpl; unfold holding, got_pair; simpl;
    intros H; try done; try lia; apply IH; lia.
Qed.

(** X19: where the barrier is waited for ([Load] and the count-based
    [Run]), the statistics are computed only when every submitted key has
    been handed to [db.Write], each in exactly one call: the calls made
    are the submissions, up to the order in which the workers entered
    them. *)
Theorem report_after_all_calls (p : phase) (c : Bconfig) (cnt g : Z)
    (lat : list Z) (s : state) (l : list Z) :
  reachable (start p c cnt g lat) s → crashed s = None →
  waits_for_barrier s = true → report s = Some l →
  called s ≡ₚ submitted s.
Proof.
  intros Hr Hc Hw Hl.
  destruct (reachable_barrier p c cnt g lat s Hr Hc) as (Ha & _ & Hd).
  destruct (Hd Hw) as [Hpc Hrep]. destruct (Hrep l Hl) as [Hdone _].
  rewrite Hdone in Hpc. unfold accounted in Ha. rewrite Hpc, Hdone in Ha.
  assert (Hb : busy (workers s) = 0%nat) by (simpl in Ha; lia).
  assert (Hp : paired s) by (eapply reachable_paired; [apply start_paired | exact Hr]).
  assert (He : entered s) by (eapply reachable_entered; [apply start_entered | exact Hr]).
  destruct Hp as [_ Hp]. rewrite Hdone in Hp. simpl in Hp. destruct Hp as [-> _].
  unfold entered in He. rewrite (busy_zero_got_pairs _ Hb), app_nil_r in He.
  by symmetry.
Qed.

Lemma report_after_all_calls_witness :
  called (run_to (fresh RunPhase count_cfg) overtaking_end_sched)
  ≡ₚ submitted (run_to (fresh RunPhase count_cfg) overtaking_end_sched).
Proof.
  apply (report_after_all_calls RunPhase count_cfg (-1) (-1) []
           (run_to (fresh RunPhase count_cfg) overtaking_end_sched) [4; 4; 4]).
  - exists overtaking_end_sched. vm_compute. reflexivity.
  - vm_compute. reflexivity.
  - vm_compute. reflexivity.
  - vm_compute. reflexivity.
Defined.

(** ** A count-based run that runs to its end *)

Ltac open_point H :=
  let Hc := fresh "Hc" in let Hph := fresh "Hph" in let Hcfg := fresh "Hcfg" in
  let Hpc := fresh "Hpc" in let Hk := fresh "Hk" in let Hl := fresh "Hl" in
  let Hlc := fresh "Hlc" in let Hw := fresh "Hw" in let ws := fresh "ws" in
  let Hws := fresh "Hws" in
  destruct H as (Hc & Hph & Hcfg & Hpc & Hk & Hl & Hlc & Hw & ws & Hws);
  unfold step; rewrite Hc.

Ltac close_point :=
  eexists; split; [reflexivity|]; unfold at_point; simpl;
  repeat match goal with E : workers _ = _ |- _ => rewrite E end;
  simpl; repeat split; eauto.

Lemma point_generate (c : Bconfig) (i : Z) (draw : Z) (fuel : nat) (s : state) :
  Distribution c = "order" → K c ≠ 0 →
  (if 0 <? T c then True else i < N c) →
  at_point RunPhase c (OLoop i) [] idle [] 0 s →
  ∃ s' k, step s (AOrch false draw fuel) = Some s' ∧
          at_point RunPhase c (OSendKey i k) [] idle [] 1 s'.
Proof.
  intros Hd Hk0 Hi H. open_point H. unfold orch. rewrite Hpc, Hph, Hcfg.
  unfold generate. rewrite Hcfg, next_order, advance_returns by done.
  destruct (0 <? T c).
  - eexists _, _. split; [reflexivity|]. unfold at_point. simpl.
    rewrite Hw, Hws. repeat split; eauto.
  - apply Z.ltb_lt in Hi. rewrite Hi.
    eexists _, _. split; [reflexivity|]. unfold at_point. simpl.
    rewrite Hw, Hws. repeat split; eauto.
Qed.

Lemma point_send_key (p0 : phase) (c : Bconfig) (i k : Z) (f : bool) (d : Z)
    (u : nat) (x : wstate) (n : Z) (s : state) :
  1 ≤ Concurrency c → at_point p0 c (OSendKey i k) [] x [] n s →
  ∃ s', step s (AOrch f d u) = Some s' ∧ at_point p0 c (OSendSeq i) [k] x [] n s'.
Proof.
  intros Hcon H. open_point H. unfold orch. rewrite Hpc, Hk, Hcfg. simpl.
  destruct (Z.ltb_spec (Z.of_nat 0) (Concurrency c)); [|lia]. close_point.
Qed.

Lemma point_take (p0 : phase) (c : Bconfig) (p : opc) (k : Z) (coin t0 t1 : Z)
    (lq : list Z) (n : Z) (s : state) :
  coin_below coin (W c) = true → at_point p0 c p [k] idle lq n s →
  ∃ s', step s (ATake 0 coin t0 t1) = Some s' ∧
        at_point p0 c p [] (mkW (WRecvSeq k) None) lq n s'.
Proof.
  intros Hcoin H. open_point H. unfold worker_take. rewrite Hws, Hk, Hcfg. simpl.
  rewrite Hcoin. unfold set_worker. close_point.
Qed.

Lemma point_rendezvous (p0 : phase) (c : Bconfig) (i k : Z) (ks lq : list Z)
    (n : Z) (s : state) :
  at_point p0 c (OSendSeq i) ks (mkW (WRecvSeq k) None) lq n s →
  ∃ s' q, step s (ARendezvous 0) = Some s' ∧
          at_point p0 c (OLoop (bump s i)) ks (mkW (WGotSeq k q) None) lq n s'.
Proof.
  intros H. open_point H. unfold rendezvous. rewrite Hpc, Hws. simpl.
  unfold set_worker.
  eexists _, _. split; [reflexivity|]. unfold at_point. simpl.
  rewrite Hws. simpl. repeat split; eauto.
Qed.

Lemma point_enter (p0 : phase) (c : Bconfig) (p : opc) (k q : Z)
    (ks lq : list Z) (n : Z) (s : state) :
  at_point p0 c p ks (mkW (WGotSeq k q) None) lq n s →
  ∃ s', step s (AEnter 0) = Some s' ∧
        at_point p0 c p ks (mkW (WCalling k q) None) lq n s'.
Proof.
  intros H. open_point H. unfold enter_write. rewrite Hws. simpl.
  unfold set_worker. close_point.
Qed.

Lemma point_write_ret (p0 : phase) (c : Bconfig) (p : opc) (k q t0 t1 : Z)
    (ks lq : list Z) (n : Z) (s : state) :
  at_point p0 c p ks (mkW (WCalling k q) None) lq n s →
  ∃ s', step s (AWriteRet 0 None t0 t1) = Some s' ∧
        at_point p0 c p ks (mkW (WSend (t1 - t0)) None) lq n s'.
Proof.
  intros H. open_point H. unfold write_ret. rewrite Hws. simpl.
  unfold finish, set_worker. close_point.
Qed.

Lemma point_send_latency (p0 : phase) (c : Bconfig) (p : opc) (d : Z)
    (ks : list Z) (n : Z) (s : state) :
  at_point p0 c p ks (mkW (WSend d) None) [] n s →
  ∃ s', step s (ASend 0) = Some s' ∧ at_point p0 c p ks idle [d] n s'.
Proof.
  intros H. open_point H. unfold send_latency. rewrite Hws, Hlc, Hl. simpl.
  unfold set_worker. close_point.
Qed.

Lemma point_collect (p0 : phase) (c : Bconfig) (p : opc) (d : Z) (ks : list Z)
    (x : wstate) (s : state) :
  at_point p0 c p ks x [d] 1 s →
  ∃ s', step s ACollect = Some s' ∧ at_point p0 c p ks x [] 0 s'.
Proof.
  intros H. open_point H. unfold collect. rewrite Hl, Hw. simpl. close_point.
Qed.

Lemma count_round (c : Bconfig) (i : Z) (s : state) :
  Distribution c = "order" → K c ≠ 0 → T c ≤ 0 → in_int64 (N c) →
  1 ≤ Concurrency c → coin_below 0 (W c) = true →
  0 ≤ i < N c → at_point RunPhase c (OLoop i) [] idle [] 0 s →
  ∃ s', exec s (round 0 None ++ deliver 0) = Some s' ∧
        at_point RunPhase c (OLoop (i + 1)) [] idle [] 0 s'.
Proof.
  intros Hd Hk HT HN Hcon Hcoin Hi H0.
  assert (HT' : (0 <? T c) = false) by (apply Z.ltb_ge; lia).
  destruct (point_generate c i 0 0%nat s Hd Hk) as (s1 & k & E1 & H1);
    [rewrite HT'; lia | done |].
  destruct (point_send_key _ c i k false 0 0%nat _ _ s1 Hcon H1) as (s2 & E2 & H2).
  destruct (point_take _ c _ k 0 0 0 _ _ s2 Hcoin H2) as (s3 & E3 & H3).
  destruct (point_rendezvous _ c i k _ _ _ s3 H3) as (s4 & q & E4 & H4).
  assert (Hb : bump s3 i = i + 1).
  { destruct H3 as (_ & Hph & Hcfg & _). unfold bump. rewrite Hph, Hcfg, HT'.
    apply add64_id. unfold in_int64, min_int64, max_int64 in *. lia. }
  rewrite Hb in H4.
  destruct (point_enter _ c _ k q _ _ _ s4 H4) as (s4' & E4' & H4').
  destruct (point_write_ret _ c _ k q 5 9 _ _ _ s4' H4') as (s5 & E5 & H5).
  destruct (point_send_latency _ c _ _ _ _ s5 H5) as (s6 & E6 & H6).
  destruct (point_collect _ c _ _ _ _ s6 H6) as (s7 & E7 & H7).
  exists s7. split; [|exact H7].
  unfold round, deliver. simpl app.
  repeat (eapply exec_cons; [eassumption|]). reflexivity.
Qed.

Lemma count_rounds_run (c : Bconfig) (n : nat) (i : Z) (s : state) :
  Distribution c = "order" → K c ≠ 0 → T c ≤ 0 → in_int64 (N c) →
  1 ≤ Concurrency c → coin_below 0 (W c) = true →
  0 ≤ i → ((0 < n)%nat → i + Z.of_nat n ≤ N c) →
  at_point RunPhase c (OLoop i) [] idle [] 0 s →
  ∃ s', exec s (run_rounds n) = Some s' ∧
        at_point RunPhase c (OLoop (i + Z.of_nat n)) [] idle [] 0 s'.
Proof.
  intros Hd Hk HT HN Hcon Hcoin. revert i s.
  induction n as [|n IH]; intros i s Hi Hn Hh.
  - exists s. replace (i + Z.of_nat 0) with i by lia. done.
  - destruct (count_round c i s) as (s1 & E1 & H1); try done; [lia|].
    destruct (IH (i + 1) s1) as (s2 & E2 & H2); [lia | lia | done |].
    exists s2. split.
    + change (run_rounds (S n))
        with ((round 0 None ++ deliver 0) ++ run_rounds n).
      rewrite exec_app, E1. exact E2.
    + replace (i + Z.of_nat (S n)) with (i + 1 + Z.of_nat n) by lia. done.
Qed.

Lemma count_wind_up (c : Bconfig) (i : Z) (s : state) :
  T c ≤ 0 → N c ≤ i → at_point RunPhase c (OLoop i) [] idle [] 0 s →
  ∃ s', exec s wind_up = Some s' ∧ pc s' = ODone ∧ crashed s' = None ∧
        report s' = Some (latency s) ∧ latency s' = latency s ∧
        errlog s' = errlog s ∧ submitted s' = submitted s.
Proof.
  intros HT Hi H.
  destruct H as (Hc & Hph & Hcfg & Hpc & Hk & Hl & Hlc & Hw & ws & Hws).
  apply Z.ltb_ge in Hi.
  assert (HT' : (0 <? T c) = false) by (apply Z.ltb_ge; lia).
  assert (E1 : step s (AOrch false 0 0) = Some (set_pc OWait s)).
  { unfold step, orch. by rewrite Hc, Hpc, Hph, Hcfg, HT', Hi. }
  assert (E2 : step (set_pc OWait s) (AOrch false 0 0)
               = Some (set_pc OStop (set_pc OWait s))).
  { unfold step, orch. simpl. by rewrite Hc, Hph, Hw. }
  assert (E3 : step (set_pc OStop (set_pc OWait s)) (AOrch false 0 0)
               = Some (set_pc OReport (set_seq_closed true (set_keys_closed true
                         (set_pc OStop (set_pc OWait s)))))).
  { unfold step, orch. simpl. by rewrite Hc, Hph. }
  eexists. split.
  - unfold wind_up.
    eapply exec_cons; [exact E1|]. eapply exec_cons; [exact E2|].
    eapply exec_cons; [exact E3|]. eapply exec_cons; [|reflexivity].
    unfold step, orch. simpl. rewrite Hc. reflexivity.
  - simpl. done.
Qed.

Lemma start_at_point (p : phase) (c : Bconfig) (cnt g : Z) (lat : list Z) :
  1 ≤ Concurrency c →
  at_point p (cfg (start p c cnt g lat)) (pc (start p c cnt g lat)) [] idle [] 0
    (start p c cnt g lat).
Proof.
  intros Hcon. unfold at_point, start. simpl.
  destruct (Z.ltb_spec (Concurrency c) 0); [lia|].
  repeat split; try done.
  destruct (Z.to_nat (Concurrency c)) as [|n] eqn:E; [lia|].
  simpl. eauto.
Qed.

(** X14: a count-based [Run] under the order distribution, with at least
    one worker, a write ratio above zero and writes that return without
    error, can run to its end, and what it then hands to [Statistic] is
    one latency per requested key, with nothing logged. *)
Theorem count_run_completes (c : Bconfig) (cnt g : Z) (lat : list Z) :
  Distribution c = "order" → K c ≠ 0 → T c ≤ 0 → in_int64 (N c) →
  1 ≤ Concurrency c → coin_below 0 (W c) = true →
  ∃ sched s l,
    exec (start RunPhase c cnt g lat) sched = Some s ∧
    pc s = ODone ∧ crashed s = None ∧ report s = Some l ∧
    Z.of_nat (length l) = Z.max 0 (N c) ∧ errlog s = [].
Proof.
  intros Hd Hk HT HN Hcon Hcoin.
  pose proof (start_at_point RunPhase c cnt g lat Hcon) as H0. simpl in H0.
  set (n := Z.to_nat (N c)).
  destruct (count_rounds_run c n 0 (start RunPhase c cnt g lat))
    as (s1 & E1 & H1); try done; [lia|].
  destruct (count_wind_up c (0 + Z.of_nat n) s1) as
    (s2 & E2 & Hpc & Hc & Hrep & Hlat & Herr & Hsub); [done | lia | done |].
  assert (Hex : exec (start RunPhase c cnt g lat) (run_rounds n ++ wind_up) = Some s2).
  { rewrite exec_app, E1. exact E2. }
  assert (Hr : reachable (start RunPhase c cnt g lat) s2) by (eexists; exact Hex).
  exists (run_rounds n ++ wind_up), s2, (latency s1).
  split; [done|]. split; [done|]. split; [done|]. split; [done|].
  destruct (reachable_barrier RunPhase c cnt g lat s2 Hr Hc) as (Ha & Hb & Hdr).
  destruct (count_run_submits_N_aux c cnt g lat s2 HT HN Hr) as [_ Hn].
  assert (Hw : waits_for_barrier s2 = true).
  { destruct (reachable_ph _ _ Hr) as [Hph Hcfg]. unfold waits_for_barrier.
    rewrite Hph, Hcfg. simpl. apply negb_true_iff, Z.ltb_ge. lia. }
  destruct (Hdr Hw) as [Hz _]. rewrite Hpc in Hz.
  unfold balanced in Hb. rewrite Hpc in Hb. simpl in Hb.
  unfold accounted in Ha. rewrite Hpc in Hn. specialize (Hn eq_refl).
  rewrite <- Hlat. split; [lia|].
  destruct (errlog s2); [done|]. simpl in Ha. lia.
Qed.

Lemma count_run_completes_witness :
  ∃ sched s l,
    exec (start RunPhase count_cfg (-1) (-1) []) sched = Some s ∧
    pc s = ODone ∧ crashed s = None ∧ report s = Some l ∧
    Z.of_nat (length l) = Z.max 0 (N count_cfg) ∧ errlog s = [].
Proof.
  apply (count_run_completes count_cfg (-1) (-1) []).
  - reflexivity.
  - simpl. lia.
  - simpl. lia.
  - unfold in_int64, min_int64, max_int64. simpl. lia.
  - simpl. lia.
  - reflexivity.
Defined.

(** ** A timed run that dies after its report *)

(** X15: a timed [Run] can kill the process after it has reported: when
    the timer fires while a write is inside [db.Write], [Run] computes its
    statistics and returns, which closes the channel [latencies]; the
    write that then returns without error makes its worker send on the
    closed channel. *)
Theorem timed_run_late_return_panics (c : Bconfig) (cnt g : Z) (lat : list Z) :
  0 < T c → Distribution c = "order" → K c ≠ 0 → 1 ≤ Concurrency c →
  coin_below 0 (W c) = true →
  ∃ s l, exec (start RunPhase c cnt g lat) late_return_sched = Some s ∧
         report s = Some l ∧ returned s ≠ [] ∧
         crashed s = Some closed_send_panic.
Proof.
  intros HT Hd Hk Hcon Hcoin.
  assert (HT' : (0 <? T c) = true) by (apply Z.ltb_lt; lia).
  pose proof (start_at_point RunPhase c cnt g lat Hcon) as H0. simpl in H0.
  destruct (point_generate c 0 0 0%nat (start RunPhase c cnt g lat) Hd Hk)
    as (s1 & k & E1 & H1); [by rewrite HT' | done |].
  destruct (point_send_key _ c 0 k false 0 0%nat _ _ s1 Hcon H1) as (s2 & E2 & H2).
  destruct (point_take _ c _ k 0 0 0 _ _ s2 Hcoin H2) as (s3 & E3 & H3).
  destruct (point_rendezvous _ c 0 k _ _ _ s3 H3) as (s4 & q & E4 & H4).
  assert (Hb : bump s3 0 = 0).
  { destruct H3 as (_ & Hph & Hcfg & _). unfold bump. by rewrite Hph, Hcfg, HT'. }
  rewrite Hb in H4.
  destruct (point_enter _ c _ k q _ _ _ s4 H4) as (s5 & E5 & H5).
  destruct H5 as (Hc & Hph & Hcfg & Hpc & Hks & Hl & Hlc & Hw & ws & Hws).
  eexists _, _. split.
  - unfold late_return_sched, cutoff_sched, in_flight_sched. simpl app.
    eapply exec_cons; [exact E1|]. eapply exec_cons; [exact E2|].
    eapply exec_cons; [exact E3|]. eapply exec_cons; [exact E4|].
    eapply exec_cons; [exact E5|].
    eapply exec_cons.
    { unfold step, orch. rewrite Hc, Hpc, Hph, Hcfg, HT'. reflexivity. }
    eapply exec_cons.
    { unfold step, orch. simpl. rewrite Hc, Hph. reflexivity. }
    eapply exec_cons.
    { unfold step, orch. simpl. rewrite Hc. reflexivity. }
    eapply exec_cons.
    { unfold step, write_ret. simpl. rewrite Hc, Hws. simpl. reflexivity. }
    eapply exec_cons; [|reflexivity].
    unfold step, send_latency, finish, set_worker. simpl.
    rewrite Hc, Hws. simpl. reflexivity.
  - simpl. split; [reflexivity|]. split; [|reflexivity].
    destruct (returned s5); discriminate.
Qed.

Lemma timed_run_late_return_panics_witness :
  ∃ s l, exec (start RunPhase timed_cfg (-1) (-1) []) late_return_sched = Some s ∧
         report s = Some l ∧ returned s ≠ [] ∧
         crashed s = Some closed_send_panic.
Proof.
  apply (timed_run_late_return_panics timed_cfg (-1) (-1) []).
  - simpl. lia.
  - reflexivity.
  - simpl. lia.
  - simpl. lia.
  - reflexivity.
Defined.

(** ** The keys of a run under the uniform distribution *)

Lemma keys_in_range_step (c : Bconfig) (s s' : state) (a : action) :
  Distribution c = "uniform" →
  in_int64 (K c) → in_int64 (Min c) → Min c + K c ≤ two63 →
  keys_in_range c s → step s a = Some s' → keys_in_range c s'.
Proof.
  intros Hd Hki Hm Hov Hr H.
  step_cases H; destruct Hr as (Hph & Hcfg & Hkey & Hsub);
    unfold keys_in_range; simpl.
  all: try (split; [done|]; split; [done|]; split; [exact Hkey | exact Hsub]).
  all: try match goal with E : pc _ = _ |- _ => rewrite E in *; simpl in * end.
  all: try (split; [done|]; split; [done|]).
  all: try (split; [intros; discriminate | exact Hsub]).
  all: try congruence.
  all: try match goal with
       | E : next _ _ _ _ = Ret _ |- _ =>
           split; [|exact Hsub]; intros ? ? [= <- <-];
           rewrite Hcfg in E; unfold next in E; rewrite Hd in E; simpl in E;
           unfold Intn in E; destruct (Z.leb_spec (K c) 0); [discriminate|];
           injection E as <- <-;
           pose proof (Z.mod_pos_bound draw (K c));
           rewrite add64_id
             by (unfold in_int64, min_int64, max_int64, two63 in *; lia);
           lia
       end.
  split; [intros; discriminate|].
  intros k0 q [Hin | Hin%list_elem_of_singleton]%elem_of_app.
  - eapply Hsub; eauto.
  - injection Hin as -> ->. eapply Hkey; eauto.
Qed.

(** X16: in a [Run] under the uniform distribution every key submitted,
    and so every key a worker receives its sequence number for and every
    key handed to [db.Write], lies in [[Min, Min + K)] (as long as
    [Min + K] is a machine integer); with [K <= 0] no key is submitted at
    all, since [rand.Intn] panics. *)
Theorem uniform_run_keys_in_range (c : Bconfig) (cnt g : Z) (lat : list Z)
    (s : state) :
  Distribution c = "uniform" →
  in_int64 (K c) → in_int64 (Min c) → Min c + K c ≤ two63 →
  reachable (start RunPhase c cnt g lat) s →
  (∀ k q, (k, q) ∈ submitted s → Min c ≤ k < Min c + K c) ∧
  (∀ k q, (k, q) ∈ dispatched s → Min c ≤ k < Min c + K c) ∧
  (K c ≤ 0 → submitted s = []) ∧
  (∀ k q, (k, q) ∈ called s → Min c ≤ k < Min c + K c).
Proof.
  intros Hd Hki Hm Hov Hr.
  pose proof (calls_are_submitted _ _ _ _ _ _ Hr) as Hcs.
  assert (Hp : paired s) by (eapply reachable_paired; [apply start_paired | exact Hr]).
  assert (Hin : keys_in_range c s).
  { apply (reachable_invariant (keys_in_range c) (start RunPhase c cnt g lat) s);
      [| | exact Hr].
    - unfold keys_in_range, start. simpl.
      split; [done|]. split; [done|]. split; [intros; discriminate|].
      intros k q Hx. by apply elem_of_nil in Hx.
    - intros s1 a s2 H1 Hs. eapply keys_in_range_step; eauto. }
  destruct Hin as (_ & _ & _ & Hsub). split; [exact Hsub|]. split.
  - intros k q Hx. apply (Hsub k q).
    apply list_elem_of_lookup in Hx as [j Hj].
    apply list_elem_of_lookup. exists j. by apply dispatched_lookup.
  - split.
    + intros Hk. destruct (submitted s) as [|[k q] l]; [done|].
      specialize (Hsub k q (list_elem_of_here _ _)). lia.
    + intros k q Hx. apply (Hsub k q). by eapply elem_of_submseteq.
Qed.

Lemma uniform_run_keys_in_range_witness :
  Min (set_Distribution "uniform" count_cfg) ≤ 7
  < Min (set_Distribution "uniform" count_cfg)
    + K (set_Distribution "uniform" count_cfg).
Proof.
  refine (proj1 (proj2 (uniform_run_keys_in_range
            (set_Distribution "uniform" count_cfg) (-1) (-1) []
            (run_to (fresh RunPhase (set_Distribution "uniform" count_cfg))
               [AOrch false 7 0; AOrch false 0 0; ATake 0 0 0 0; ARendezvous 0])
            eq_refl _ _ _ _)) 7 0 _).
  - unfold in_int64, min_int64, max_int64. simpl. lia.
  - unfold in_int64, min_int64, max_int64. simpl. lia.
  - unfold two63. simpl. lia.
  - exists [AOrch false 7 0; AOrch false 0 0; ATake 0 0 0 0; ARendezvous 0].
    vm_compute. reflexivity.
  - vm_compute. apply list_elem_of_here.
Defined.

(** ** A run after a load *)

(** X17: a [Run] on the benchmark that a [Load] has worked on takes up
    the sequence numbers where [NewBenchmark] left them: whatever the
    load did, the keys of the run are numbered [0], [1], [2], ... in the
    order of their generation, every call of [db.Write] of the run is
    made with the key and the number of one of these submissions, no two
    calls with the same number, and the order counter is still [-1] when
    the run starts. *)
Theorem run_after_load_numbers (c c' : Bconfig) (sl s : state) :
  reachable (fresh LoadPhase c) sl →
  reachable (start RunPhase c' (counter sl) (globalCouner sl) (latency sl)) s →
  Z.of_nat (length (submitted s)) ≤ max_int64 →
  (submitted s).*2 = seqZ 0 (Z.of_nat (length (submitted s))) ∧
  called s ⊆+ submitted s ∧
  NoDup (called s).*2 ∧
  counter sl = -1.
Proof.
  intros Hl Hr Hov. unfold fresh in Hl.
  destruct (load_keeps_counters_aux c (-1) (-1) [] sl Hl) as [Hc Hg].
  pose proof (calls_are_submitted _ _ _ _ _ _ Hr) as Hcs.
  rewrite Hg in Hr.
  assert (Hg0 : in_int64 (-1)) by (unfold in_int64, min_int64, max_int64; lia).
  pose proof (reachable_numbered _ _ _ _ _ s Hg0 Hr) as [_ Hn].
  destruct (reachable_ph _ _ Hr) as [Hph _]. simpl in Hph. rewrite Hph in Hn.
  assert (Hs : (submitted s).*2 = seqZ 0 (Z.of_nat (length (submitted s)))).
  { apply (numbers_of_list RunPhase (-1) (length (submitted s))); auto. lia. }
  split; [exact Hs|]. split; [exact Hcs|]. split; [|exact Hc].
  apply (submseteq_NoDup _ ((submitted s).*2)).
  - by apply fmap_submseteq.
  - rewrite Hs. apply NoDup_seqZ.
Qed.

Lemma run_after_load_numbers_witness :
  (submitted
     (run_to (start RunPhase count_cfg
                (counter (run_to (fresh LoadPhase load_cfg) load_sched))
                (globalCouner (run_to (fresh LoadPhase load_cfg) load_sched))
                (latency (run_to (fresh LoadPhase load_cfg) load_sched)))
        overtaking_sched)).*2 = seqZ 0 3 ∧
  NoDup
    (called
       (run_to (start RunPhase count_cfg
                  (counter (run_to (fresh LoadPhase load_cfg) load_sched))
                  (globalCouner (run_to (fresh LoadPhase load_cfg) load_sched))
                  (latency (run_to (fresh LoadPhase load_cfg) load_sched)))
          overtaking_sched)).*2.
Proof.
  refine (let H := run_after_load_numbers load_cfg count_cfg
            (run_to (fresh LoadPhase load_cfg) load_sched)
            (run_to (start RunPhase count_cfg
                       (counter (run_to (fresh LoadPhase load_cfg) load_sched))
                       (globalCouner (run_to (fresh LoadPhase load_cfg) load_sched))
                       (latency (run_to (fresh LoadPhase load_cfg) load_sched)))
               overtaking_sched) _ _ _ in
          conj (proj1 H) (proj1 (proj2 (proj2 H)))).
  - exists load_sched. vm_compute. reflexivity.
  - exists overtaking_sched. vm_compute. reflexivity.
  - vm_compute. discriminate.
Defined.
